(** * qubes-kvm-agent: the command executor, the file endpoints and the
      streaming shell session of [lenovo-agent/agent.py]

    The agent is a small FastAPI program.  Its own code is short; what it
    does is decided by the library calls it makes ([subprocess.run],
    [asyncio.create_subprocess_shell], [Path.read_text], [json.loads], the
    WebSocket [send_json] / [receive_text]).  The development therefore has
    three layers:

    - Python values as the agent sees them: [str] is a sequence of code
      points, [bytes] a sequence of octets, with the UTF-8 codec, universal
      newlines, [str.splitlines], slices and [rstrip] written out;
    - the host the agent runs on: a file system (a finite map from paths to
      nodes), a monotonic clock, and what a shell command does once started
      (what it writes on its two pipes, in which order, and how it exits);
    - the agent's functions themselves, transcribed one statement at a time
      over these: [run_cmd], [read_file], [write_file], [ws_shell].

    What is taken from the platform rather than from the agent:

    - the locale encoding is UTF-8 and the line separator is LF (the agent
      runs on a Linux host);
    - the clock reads rational seconds, so that [int((t1 - t0) * 1000)] is an
      exact truncation; the code computes it in floats, which can differ in
      the last millisecond, so durations are stated by whole-number bounds
      that hold of both;
    - a send on a connection the peer has left raises WebSocketDisconnect,
      as the framework does;
    - permissions, symbolic links and text the platform cannot encode are
      left out of the file system and of command lines, and a path is the
      list of its components as written ([..] is not followed). *)

From Stdlib Require Import String Ascii ZArith QArith Bool Lia Lqa.
From stdpp Require Import base option list gmap.

Local Open Scope Z_scope.

(** ** Python values *)

(** A Python [str] is a sequence of Unicode code points; [bytes] is a
    sequence of octets.  Both are lists of integers here. *)
Definition str := list Z.
Definition bytes := list Z.

(** ASCII literals, for readable examples. *)
Definition u (s : string) : str :=
  map (fun a => Z.of_N (N_of_ascii a)) (list_ascii_of_string s).

(** [len(s)] *)
Definition len {A} (s : list A) : Z := Z.of_nat (length s).

(** Exceptions the modelled calls can raise. *)
Inductive oserror := ENOENT | ENOTDIR | EISDIR | EEXIST | EACCES.

Inductive exn :=
| OSError (e : oserror)          (* FileNotFoundError, NotADirectoryError, ... *)
| ValueError
| TypeError
| AttributeError
| JSONDecodeError
| UnicodeDecodeError
| UnicodeEncodeError
| TimeoutExpired
| WebSocketDisconnect
| HTTPException (status : Z).

(** How a call ends: it returns, it raises, or it never returns (an
    [await] on something that does not happen). *)
Inductive Result (A : Type) :=
| Ok (a : A)
| Raise (e : exn)
| Blocks.
Arguments Ok {A} a.
Arguments Raise {A} e.
Arguments Blocks {A}.

(** *** UTF-8 *)

(** [str.encode("utf-8")] of one code point; surrogates and values outside
    the code space cannot be encoded. *)
Definition utf8_encode_char (c : Z) : option bytes :=
  if c <? 0 then None
  else if c <? 0x80 then Some [c]
  else if c <? 0x800 then Some [0xC0 + c / 64; 0x80 + c mod 64]
  else if c <? 0x10000 then
    if (0xD800 <=? c) && (c <=? 0xDFFF) then None
    else Some [0xE0 + c / 4096; 0x80 + (c / 64) mod 64; 0x80 + c mod 64]
  else if c <? 0x110000 then
    Some [0xF0 + c / 262144; 0x80 + (c / 4096) mod 64;
          0x80 + (c / 64) mod 64; 0x80 + c mod 64]
  else None.

Fixpoint utf8_encode (s : str) : option bytes :=
  match s with
  | [] => Some []
  | c :: r =>
      match utf8_encode_char c, utf8_encode r with
      | Some e, Some er => Some (e ++ er)
      | _, _ => None
      end
  end.

Definition between (lo hi b : Z) : bool := (lo <=? b) && (b <=? hi).

(** continuation byte *)
Definition cont (b : Z) : bool := between 0x80 0xBF b.

(** admissible second byte after a three-byte, resp. four-byte, lead *)
Definition second3 (b0 b1 : Z) : bool :=
  between (if b0 =? 0xE0 then 0xA0 else 0x80) (if b0 =? 0xED then 0x9F else 0xBF) b1.
Definition second4 (b0 b1 : Z) : bool :=
  between (if b0 =? 0xF0 then 0x90 else 0x80) (if b0 =? 0xF4 then 0x8F else 0xBF) b1.

(** The decoder's scan: one [Some c] per well-formed sequence, one [None]
    per maximal ill-formed subpart (the unit the [replace] handler turns
    into U+FFFD and the [strict] handler raises on). *)
Fixpoint utf8_scan (bs : bytes) : list (option Z) :=
  match bs with
  | [] => []
  | b0 :: r0 =>
      if b0 <? 0x80 then Some b0 :: utf8_scan r0
      else if between 0xC2 0xDF b0 then
        match r0 with
        | [] => [None]
        | b1 :: r1 =>
            if cont b1 then Some ((b0 - 0xC0) * 64 + (b1 - 0x80)) :: utf8_scan r1
            else None :: utf8_scan r0
        end
      else if between 0xE0 0xEF b0 then
        match r0 with
        | [] => [None]
        | b1 :: r1 =>
            if second3 b0 b1 then
              match r1 with
              | [] => [None]
              | b2 :: r2 =>
                  if cont b2 then
                    Some ((b0 - 0xE0) * 4096 + (b1 - 0x80) * 64 + (b2 - 0x80))
                      :: utf8_scan r2
                  else None :: utf8_scan r1
              end
            else None :: utf8_scan r0
        end
      else if between 0xF0 0xF4 b0 then
        match r0 with
        | [] => [None]
        | b1 :: r1 =>
            if second4 b0 b1 then
              match r1 with
              | [] => [None]
              | b2 :: r2 =>
                  if cont b2 then
                    match r2 with
                    | [] => [None]
                    | b3 :: r3 =>
                        if cont b3 then
                          Some ((b0 - 0xF0) * 262144 + (b1 - 0x80) * 4096
                                + (b2 - 0x80) * 64 + (b3 - 0x80))
                            :: utf8_scan r3
                        else None :: utf8_scan r2
                    end
                  else None :: utf8_scan r1
              end
            else None :: utf8_scan r0
        end
      else None :: utf8_scan r0
  end.

(** [bs.decode("utf-8", errors="replace")] *)
Definition decode_replace (bs : bytes) : str :=
  map (fun o => match o with Some c => c | None => 0xFFFD end) (utf8_scan bs).

(** [bs.decode("utf-8")], strict: any ill-formed subpart raises. *)
Fixpoint all_some (l : list (option Z)) : option str :=
  match l with
  | [] => Some []
  | Some c :: r => match all_some r with Some s => Some (c :: s) | None => None end
  | None :: _ => None
  end.

Definition decode_strict (bs : bytes) : option str := all_some (utf8_scan bs).

(** *** Text-mode newlines, lines, slices *)

(** Universal newlines on input: every CR LF and every lone CR reads as LF. *)
Fixpoint universal_newlines (s : str) : str :=
  match s with
  | [] => []
  | c :: r =>
      if c =? 13 then
        10 :: match r with
              | [] => []
              | d :: r' => if d =? 10 then universal_newlines r' else universal_newlines r
              end
      else c :: universal_newlines r
  end.

(** The line boundaries of [str.splitlines] other than CR. *)
Definition is_linebreak (c : Z) : bool :=
  (c =? 10) || (c =? 11) || (c =? 12) || (c =? 0x1C) || (c =? 0x1D) || (c =? 0x1E)
  || (c =? 0x85) || (c =? 0x2028) || (c =? 0x2029).

(** [s.splitlines(keepends)], with the line being collected in [cur]. *)
Fixpoint splitlines_from (keepends : bool) (cur : str) (s : str) : list str :=
  match s with
  | [] => match cur with [] => [] | _ => [cur] end
  | c :: r =>
      if c =? 13 then
        match r with
        | [] => [cur ++ (if keepends then [13] else [])]
        | d :: r' =>
            if d =? 10 then
              (cur ++ (if keepends then [13; 10] else [])) :: splitlines_from keepends [] r'
            else
              (cur ++ (if keepends then [13] else [])) :: splitlines_from keepends [] r
        end
      else if is_linebreak c then
        (cur ++ (if keepends then [c] else [])) :: splitlines_from keepends [] r
      else splitlines_from keepends (cur ++ [c]) r
  end.

Definition splitlines (keepends : bool) (s : str) : list str :=
  splitlines_from keepends [] s.

(** [s[i:]] for any integer [i]: a negative index counts from the end and is
    clamped at the start of the sequence. *)
Definition slice_from {A} (i : Z) (s : list A) : list A :=
  let start := if i <? 0 then Z.max (len s + i) 0 else Z.min i (len s) in
  drop (Z.to_nat start) s.

(** [s[:j]] *)
Definition slice_to {A} (j : Z) (s : list A) : list A :=
  let stop := if j <? 0 then Z.max (len s + j) 0 else Z.min j (len s) in
  take (Z.to_nat stop) s.

(** [s.rstrip(chr(c))]: drop every trailing occurrence of [c]. *)
Fixpoint rstrip (c : Z) (s : str) : str :=
  match s with
  | [] => []
  | x :: r =>
      match rstrip c r with
      | [] => if x =? c then [] else [x]
      | r' => x :: r'
      end
  end.

(** [int(q)]: truncation toward zero. *)
Definition py_int (q : Q) : Z := Z.quot (Qnum q) (Z.pos (Qden q)).

(** ** Stateful, fallible code

    A computation over a state [S] that returns, raises or blocks, and
    leaves a state behind in each case (what a call did before it raised
    stays done). *)
Definition M (S A : Type) : Type := S -> Result A * S.

Definition ret {S A} (a : A) : M S A := fun s => (Ok a, s).
Definition raise {S A} (e : exn) : M S A := fun s => (Raise e, s).
Definition bind {S A B} (c : M S A) (k : A -> M S B) : M S B :=
  fun s => match c s with
           | (Ok a, s') => k a s'
           | (Raise e, s') => (Raise e, s')
           | (Blocks, s') => (Blocks, s')
           end.
Definition block {S A} : M S A := fun s => (Blocks, s).
Definition get {S} : M S S := fun s => (Ok s, s).
Definition put {S} (s : S) : M S unit := fun _ => (Ok tt, s).

(** [try: c  except <the exceptions h is defined on>: h e] *)
Definition try_except {S A} (c : M S A) (h : exn -> option (M S A)) : M S A :=
  fun s => match c s with
           | (Raise e, s') => match h e with Some k => k s' | None => (Raise e, s') end
           | r => r
           end.

(** A library call that only returns or raises. *)
Definition lift {S A} (r : Result A) : M S A := fun s => (r, s).

Notation "x <- c ;; k" := (bind c (fun x => k))
  (at level 100, c at next level, right associativity).
Notation "c ;;; k" := (bind c (fun _ => k))
  (at level 100, right associativity).

(** ** The file system *)

(** A path is absolute and given component by component; the root is [[]].
    Symbolic links and permissions are not modelled.  The components are
    taken as they are written: [..] and [.] are names like any other here,
    where the operating system reads them as the directory above and the
    directory itself.  A statement that tells paths apart is therefore made
    for paths without such components ([resolved], below). *)
Definition path := list str.

Inductive node :=
| File (data : bytes)
| Dir.

Abbreviation filesystem := (gmap path node).

Definition parent (p : path) : path := removelast p.

(** The root always exists and is a directory. *)
Definition node_at (fs : filesystem) (p : path) : option node :=
  match p with
  | [] => Some Dir
  | _ => fs !! p
  end.

(** [p.exists()], [p.is_file()], [p.is_dir()] *)
Definition exists_ (p : path) : M filesystem bool :=
  fs <- get ;; ret (match node_at fs p with Some _ => true | None => false end).
Definition is_file (p : path) : M filesystem bool :=
  fs <- get ;; ret (match node_at fs p with Some (File _) => true | _ => false end).
Definition is_dir (p : path) : M filesystem bool :=
  fs <- get ;; ret (match node_at fs p with Some Dir => true | _ => false end).

(** [os.mkdir(q)] *)
Definition os_mkdir (q : path) : M filesystem unit :=
  fs <- get ;;
  match node_at fs q with
  | Some _ => raise (OSError EEXIST)
  | None =>
      match node_at fs (parent q) with
      | None => raise (OSError ENOENT)
      | Some (File _) => raise (OSError ENOTDIR)
      | Some Dir => put (<[q := Dir]> fs)
      end
  end.

(** [q.mkdir(parents=False, exist_ok=True)] *)
Definition mkdir_exist_ok (q : path) : M filesystem unit :=
  fun fs =>
    match os_mkdir q fs with
    | (Raise (OSError ENOENT), fs') => (Raise (OSError ENOENT), fs')
    | (Raise e, fs') =>
        match is_dir q fs' with
        | (Ok true, fs'') => (Ok tt, fs'')
        | (_, fs'') => (Raise e, fs'')
        end
    | r => r
    end.

(** [q.mkdir(parents=True, exist_ok=True)], as pathlib writes it: try
    [os.mkdir]; on FileNotFoundError make the parent the same way and try
    again; on any other OSError accept an existing directory.  The path is
    taken last component first, so that the parent is a subterm. *)
Fixpoint mkdir_parents_rev (rq : list str) : M filesystem unit :=
  fun fs =>
    match os_mkdir (rev rq) fs with
    | (Raise (OSError ENOENT), fs') =>
        match rq with
        | [] => (Raise (OSError ENOENT), fs')
        | _ :: rparent =>
            match mkdir_parents_rev rparent fs' with
            | (Ok _, fs1) => mkdir_exist_ok (rev rq) fs1
            | r => r
            end
        end
    | (Raise e, fs') =>
        match is_dir (rev rq) fs' with
        | (Ok true, fs'') => (Ok tt, fs'')
        | (_, fs'') => (Raise e, fs'')
        end
    | r => r
    end.

Definition mkdir_parents (q : path) : M filesystem unit := mkdir_parents_rev (rev q).

(** [p.write_text(content)]: open for writing (which creates or truncates
    the file), encode, write; returns the number of characters written. *)
Definition write_text (p : path) (content : str) : M filesystem Z :=
  fs <- get ;;
  match node_at fs p with
  | Some Dir => raise (OSError EISDIR)
  | _ =>
      match node_at fs (parent p) with
      | None => raise (OSError ENOENT)
      | Some (File _) => raise (OSError ENOTDIR)
      | Some Dir =>
          put (<[p := File []]> fs) ;;;
          match utf8_encode content with
          | None => raise UnicodeEncodeError
          | Some data =>
              fs1 <- get ;;
              put (<[p := File data]> fs1) ;;;
              ret (len content)
          end
      end
  end.

(** [p.read_text(errors="replace")]: decode, then universal newlines. *)
Definition read_text_replace (p : path) : M filesystem str :=
  fs <- get ;;
  match node_at fs p with
  | None => raise (OSError ENOENT)
  | Some Dir => raise (OSError EISDIR)
  | Some (File data) => ret (universal_newlines (decode_replace data))
  end.

(** ** The file endpoints *)

Record FileReadRequest := { fr_path : str; fr_offset : Z; fr_limit : Z }.
Record FileWriteRequest := { fw_path : str; fw_content : str }.

Record FileReadResponse :=
  { rr_path : path; rr_content : str; rr_total_lines : Z }.
Record FileWriteResponse :=
  { wr_path : path; wr_bytes_written : Z }.

Section Files.

(** [Path(s).expanduser()], as the place in the file system it names. *)
Variable Path_expanduser : str -> path.

Definition read_file (req : FileReadRequest) : M filesystem FileReadResponse :=
  let p := Path_expanduser (fr_path req) in
  e <- exists_ p ;;
  if negb e then raise (HTTPException 404) else
  f <- is_file p ;;
  if negb f then raise (HTTPException 400) else
  text <- read_text_replace p ;;
  let lines := splitlines true text in
  let lines := if 0 <? fr_offset req then slice_from (fr_offset req) lines else lines in
  let lines := if 0 <? fr_limit req then slice_to (fr_limit req) lines else lines in
  ret {| rr_path := p;
         rr_content := concat lines;
         rr_total_lines := len (splitlines false text) |}.

Definition write_file (req : FileWriteRequest) : M filesystem FileWriteResponse :=
  let p := Path_expanduser (fw_path req) in
  mkdir_parents (parent p) ;;;
  write_text p (fw_content req) ;;;
  ret {| wr_path := p; wr_bytes_written := len (fw_content req) |}.

End Files.

(** A concrete reading of absolute POSIX paths, for examples: split at
    [/] and drop empty components. *)
Fixpoint split_slash (cur : str) (s : str) : list str :=
  match s with
  | [] => match cur with [] => [] | _ => [cur] end
  | c :: r =>
      if c =? 47 then
        match cur with [] => split_slash [] r | _ => cur :: split_slash [] r end
      else split_slash (cur ++ [c]) r
  end.

Definition posix_path (s : str) : path := split_slash [] s.

(** ** The host: processes and the clock *)

Inductive channel := Stdout | Stderr.

(** What arrives on the pipes of a child process: a line as the child wrote
    it (with its LF, when it has one), or the end of a stream. *)
Inductive pipe_item :=
| Line (ch : channel) (raw : bytes)
| Eof (ch : channel).

(** A started shell command, as far as the agent can observe it: what its
    two pipes deliver, in order of arrival, and how it exits, if it does:
    the exit status, and the time in seconds, from the start, at which a
    caller that reads both pipes to their end and waits for the exit has
    it.  A list that ends before a pipe's [Eof] is a child that keeps that
    pipe open and writes no more. *)
Record process := {
  p_pipes : list pipe_item;
  p_exit : option (Z * Q);
}.

Record host := {
  (** entering a working directory in the child: the error, if it fails *)
  h_chdir : str -> option oserror;
  (** [/bin/sh -c cmd], started in the given directory ([None]: the
      agent's own) *)
  h_sh : str -> option str -> process;
  (** time taken to kill and reap a child that timed out *)
  h_kill_latency : Q;
}.

Definition channel_eqb (a b : channel) : bool :=
  match a, b with
  | Stdout, Stdout | Stderr, Stderr => true
  | _, _ => false
  end.

(** Everything written on one channel. *)
Fixpoint written (ch : channel) (items : list pipe_item) : bytes :=
  match items with
  | [] => []
  | Line c raw :: r => if channel_eqb c ch then raw ++ written ch r else written ch r
  | Eof _ :: r => written ch r
  end.

Fixpoint closes (ch : channel) (items : list pipe_item) : bool :=
  match items with
  | [] => false
  | Eof c :: r => channel_eqb c ch || closes ch r
  | Line _ _ :: r => closes ch r
  end.

Definition has_nul (s : str) : bool := existsb (Z.eqb 0) s.

(** [time.monotonic()], in seconds, and the passing of time.  The code
    holds a reading in a binary floating-point number and computes the
    duration in such numbers; here readings and products are exact
    rationals.  The two agree up to the rounding of the last digit, so a
    duration is stated below by the whole numbers that bound it, not by its
    exact value. *)
Definition monotonic : M Q Q := get.
Definition elapse (dt : Q) : M Q unit := fun now => (Ok tt, (now + dt)%Q).

Record CompletedProcess := {
  returncode : Z;
  cp_stdout : str;
  cp_stderr : str;
}.

(** Captured output in text mode: strict decoding, then universal
    newlines. *)
Definition decode_text (b : bytes) : option str :=
  match decode_strict b with
  | Some s => Some (universal_newlines s)
  | None => None
  end.

(** The child has closed both pipes and exited within [timeout] seconds:
    its exit status and the time the run took.  Nothing ends within a
    negative timeout. *)
Definition finishes_within (p : process) (timeout : Z) : option (Z * Q) :=
  match p_exit p with
  | Some (rc, t) =>
      if (0 <=? timeout)
         && (closes Stdout (p_pipes p) && closes Stderr (p_pipes p)
             && Qle_bool t (inject_Z timeout))
      then Some (rc, t) else None
  | None => None
  end.

(** [subprocess.run(cmd, shell=True, capture_output=True, text=True,
    cwd=cwd, timeout=timeout)]: the child is started in [cwd], both pipes
    are read to their end and the child is waited for; when that takes
    longer than [timeout] seconds the child is killed and TimeoutExpired
    raised.  With a negative timeout that happens at once: no time is
    waited before the kill. *)
Definition subprocess_run (h : host) (cmd cwd : str) (timeout : Z)
  : M Q CompletedProcess :=
  if has_nul cmd || has_nul cwd then raise ValueError else
  match h_chdir h cwd with
  | Some e => raise (OSError e)
  | None =>
      let p := h_sh h cmd (Some cwd) in
      match finishes_within p timeout with
      | Some (rc, t) =>
          _ <- elapse t ;;
          match decode_text (written Stdout (p_pipes p)),
                decode_text (written Stderr (p_pipes p)) with
          | Some out, Some err =>
              ret {| returncode := rc; cp_stdout := out; cp_stderr := err |}
          | _, _ => raise UnicodeDecodeError
          end
      | None =>
          _ <- elapse (inject_Z (Z.max 0 timeout) + h_kill_latency h)%Q ;;
          raise TimeoutExpired
      end
  end.

(** ** The command executor *)

Record CommandResult := {
  exit_code : Z;
  stdout : str;
  stderr : str;
  duration_ms : Z;
}.

(** [x or default] for an optional string: [None] and the empty string are
    both false. *)
Definition or_default (x : option str) (default : str) : str :=
  match x with
  | None | Some [] => default
  | Some s => s
  end.

Section Executor.

Variable h : host.
Variable PROJECT_DIR : str.

Definition run_cmd (cmd : str) (cwd : option str) (timeout : Z) : M Q CommandResult :=
  start <- monotonic ;;
  try_except
    (r <- subprocess_run h cmd (or_default cwd PROJECT_DIR) timeout ;;
     now <- monotonic ;;
     let duration := py_int ((now - start) * inject_Z 1000)%Q in
     ret {| exit_code := returncode r;
            stdout := slice_from (-50000) (cp_stdout r);
            stderr := slice_from (-10000) (cp_stderr r);
            duration_ms := duration |})
    (fun e =>
       match e with
       | TimeoutExpired =>
           Some (now <- monotonic ;;
                 let duration := py_int ((now - start) * inject_Z 1000)%Q in
                 ret {| exit_code := 124;
                        stdout := [];
                        stderr := u "TIMEOUT";
                        duration_ms := duration |})
       | _ => None
       end).

End Executor.

(** ** The streaming shell session *)

(** What [json.loads] returns. *)
#[local] Unset Elimination Schemes.
Inductive json :=
| JNull
| JBool (b : bool)
| JInt (n : Z)
| JFloat (q : Q)
| JStr (s : str)
| JArr (items : list json)
| JObj (fields : list (str * json)).
#[local] Set Elimination Schemes.

Fixpoint str_eqb (a b : str) : bool :=
  match a, b with
  | [], [] => true
  | x :: a', y :: b' => (x =? y) && str_eqb a' b'
  | _, _ => false
  end.

Fixpoint lookup_field (key : str) (fields : list (str * json)) : option json :=
  match fields with
  | [] => None
  | (k, v) :: r => if str_eqb k key then Some v else lookup_field key r
  end.

(** [msg.get(key, default)]: only a dict has the method. *)
Definition msg_get (msg : json) (key : str) (default : json) : Result json :=
  match msg with
  | JObj fields =>
      Ok (match lookup_field key fields with Some v => v | None => default end)
  | _ => Raise AttributeError
  end.

(** The frames the session sends: [{"stream": .., "line": ..}] and
    [{"done": true, "exit_code": ..}]. *)
Inductive frame :=
| OutputLine (stream : channel) (line : str)
| Completion (exit_code : Z).

(** What the session does to the outside, in the order it does it. *)
Inductive event :=
| EvSpawn (cmd : str) (cwd : option str)   (* a child process was started *)
| EvSend (f : frame)                       (* [ws.send_json] returned *)
| EvEof (ch : channel)                     (* the drain of a pipe ended *)
| EvWait (rc : Z)                          (* [proc.wait()] returned: the child is reaped *)
| EvSignal (signal : Z).                   (* [proc.terminate()], [proc.kill()],
                                              [proc.send_signal(..)] returned *)


Definition is_line (it : pipe_item) : bool :=
  match it with Line _ _ => true | Eof _ => false end.

(** The events of a drain: an output line sent, the end of a pipe. *)
Definition is_drain_event (e : event) : bool :=
  match e with
  | EvSend (OutputLine _ _) | EvEof _ => true
  | _ => false
  end.

(** The shapes the events of one submission can take, by how its handling
    ended: nothing was started; a child was started and the handling ended
    during the drains or the wait; the child was reaped but the completion
    frame could not be sent; the completion frame was sent. *)
Inductive round_shape : Result unit -> list event -> Prop :=
| shape_unspawned res :
    res <> Ok tt -> round_shape res []
| shape_draining res cmd cwd evs :
    res <> Ok tt ->
    Forall (fun e => is_drain_event e = true) evs ->
    round_shape res (EvSpawn cmd cwd :: evs)
| shape_reaped cmd cwd evs rc :
    Forall (fun e => is_drain_event e = true) evs ->
    In (EvEof Stdout) evs -> In (EvEof Stderr) evs ->
    round_shape (Raise WebSocketDisconnect) (EvSpawn cmd cwd :: evs ++ [EvWait rc])
| shape_completed cmd cwd evs rc :
    Forall (fun e => is_drain_event e = true) evs ->
    In (EvEof Stdout) evs -> In (EvEof Stderr) evs ->
    round_shape (Ok tt)
      (EvSpawn cmd cwd :: evs ++ [EvWait rc; EvSend (Completion rc)]).

(** The state of the connection while one submission is handled: how many
    more frames the peer takes before it is gone, and what the session has
    done so far.  The session learns that the peer is gone only from a send
    or a receive that fails. *)
Record session := {
  budget : nat;
  trace : list event;
}.

Definition emit (e : event) : M session unit :=
  fun s => (Ok tt, {| budget := budget s; trace := trace s ++ [e] |}).

(** [await ws.send_json(f)]: raises once the peer has disconnected. *)
Definition send_json (f : frame) : M session unit :=
  fun s =>
    match budget s with
    | O => (Raise WebSocketDisconnect, s)
    | S b => (Ok tt, {| budget := b; trace := trace s ++ [EvSend f] |})
    end.

(** The stream reader's limit on a line (2 ** 16): [readline] raises
    ValueError on a line whose body, without the separator, is longer. *)
Definition line_limit : Z := 65536.

Definition line_body (raw : bytes) : bytes :=
  match rev raw with
  | 10 :: r => rev r
  | _ => raw
  end.

Definition is_open (ch : channel) (out_open err_open : bool) : bool :=
  match ch with Stdout => out_open | Stderr => err_open end.

Section Session.

Variable json_loads : str -> Result json.
Variable h : host.
Variable PROJECT_DIR : str.

(** [asyncio.create_subprocess_shell(cmd, stdout=PIPE, stderr=PIPE,
    cwd=cwd)] on what the submission carried.  The checks come in the
    order of the library: the command is a string, the command has no NUL,
    the working directory is a string or [None], it has no NUL, it can be
    entered. *)
Definition create_subprocess_shell (cmd cwd : json) : M session process :=
  match cmd with
  | JStr c =>
      if has_nul c then raise ValueError else
      match cwd with
      | JNull => _ <- emit (EvSpawn c None) ;; ret (h_sh h c None)
      | JStr d =>
          if has_nul d then raise ValueError else
          match h_chdir h d with
          | Some e => raise (OSError e)
          | None => _ <- emit (EvSpawn c (Some d)) ;; ret (h_sh h c (Some d))
          end
      | _ => raise TypeError
      end
  | _ => raise ValueError
  end.

(** One turn of [async for line in pipe: await ws.send_json(..)]. *)
Definition stream (stream_name : channel) (raw : bytes) : M session unit :=
  if line_limit <? len (line_body raw) then raise ValueError else
  send_json (OutputLine stream_name (rstrip 10 (decode_replace raw))).

(** [await asyncio.gather(stream(proc.stdout, ..), stream(proc.stderr,
    ..))]: the two drains take what arrives, as it arrives, until both
    pipes have ended; the first exception of either ends the wait. *)
Fixpoint gather (items : list pipe_item) (out_open err_open : bool) : M session unit :=
  match out_open, err_open with
  | false, false => ret tt
  | _, _ =>
      match items with
      | [] => block
      | Line ch raw :: rest =>
          if is_open ch out_open err_open then
            _ <- stream ch raw ;; gather rest out_open err_open
          else gather rest out_open err_open
      | Eof ch :: rest =>
          if is_open ch out_open err_open then
            _ <- emit (EvEof ch) ;;
            match ch with
            | Stdout => gather rest false err_open
            | Stderr => gather rest out_open false
            end
          else gather rest out_open err_open
      end
  end.

(** [await proc.wait()] *)
Definition proc_wait (proc : process) : M session Z :=
  match p_exit proc with
  | Some (rc, _) => _ <- emit (EvWait rc) ;; ret rc
  | None => block
  end.

(** The body of the [while True] loop, from the text just received. *)
Definition handle (data : str) : M session unit :=
  msg <- lift (json_loads data) ;;
  cmd <- lift (msg_get msg (u "command") (JStr [])) ;;
  cwd <- lift (msg_get msg (u "cwd") (JStr PROJECT_DIR)) ;;
  proc <- create_subprocess_shell cmd cwd ;;
  _ <- gather (p_pipes proc) true true ;;
  exit_code <- proc_wait proc ;;
  send_json (Completion exit_code).

(** One submission as the session handled it. *)
Record round := {
  rd_data : str;
  rd_events : list event;
  rd_status : Result unit;
}.

(** How the handler ends. *)
Inductive ending :=
| Returned                (* WebSocketDisconnect, caught: [pass] *)
| Crashed (e : exn)       (* any other exception leaves the handler *)
| Hung.                   (* the handler awaits for ever *)

(** [ws_shell], on the texts the peer sends before it disconnects and the
    number of frames it takes. *)
Fixpoint ws_shell (inbox : list str) (frames : nat) : list round * ending :=
  match inbox with
  | [] => ([], Returned)
  | data :: rest =>
      let '(res, s) := handle data {| budget := frames; trace := [] |} in
      let r := {| rd_data := data; rd_events := trace s; rd_status := res |} in
      match res with
      | Ok _ => let '(rs, e) := ws_shell rest (budget s) in (r :: rs, e)
      | Raise WebSocketDisconnect => ([r], Returned)
      | Raise e => ([r], Crashed e)
      | Blocks => ([r], Hung)
      end
  end.

End Session.


(** ** Vocabulary for the statements *)





(** The directory a child is started in ([None]: the agent's own), when the
    working directory the submission carries lets it start. *)
Definition spawn_dir (h : host) (cwd : json) : option (option str) :=
  match cwd with
  | JNull => Some None
  | JStr d =>
      if has_nul d then None
      else match h_chdir h d with
           | None => Some (Some d)
           | Some _ => None
           end
  | _ => None
  end.

(** A line the stream reader accepts. *)
Definition line_ok (it : pipe_item) : Prop :=
  match it with
  | Line _ raw => len (line_body raw) <= line_limit
  | Eof _ => True
  end.

Definition count_lines (items : list pipe_item) : nat :=
  length (List.filter is_line items).

(** ** A sample host, for examples

    A host on which [/nonexistent] cannot be entered, with a few commands:
    [echo hello]; [both], which writes on both pipes and exits with status
    3; [sleep 1000], which writes nothing and does not end; the empty
    command; anything else is not found by the shell (status 127). *)

(** JSON text with ['] standing for the double quote. *)
Definition js (s : string) : str :=
  map (fun c => if c =? 39 then 34 else c) (u s).

Definition nl (s : string) : bytes := u s ++ [10].

Definition demo_sh (cmd : str) (cwd : option str) : process :=
  if str_eqb cmd (u "echo hello") then
    {| p_pipes := [Line Stdout (nl "hello"); Eof Stdout; Eof Stderr];
       p_exit := Some (0, (1 # 100)%Q) |}
  else if str_eqb cmd (u "both") then
    {| p_pipes := [Line Stdout (nl "a"); Line Stderr (nl "x"); Line Stdout (u "b");
                   Eof Stderr; Eof Stdout];
       p_exit := Some (3, (1 # 2)%Q) |}
  else if str_eqb cmd (u "sleep 1000") then
    {| p_pipes := []; p_exit := None |}
  else if str_eqb cmd [] then
    {| p_pipes := [Eof Stdout; Eof Stderr]; p_exit := Some (0, (1 # 1000)%Q) |}
  else
    {| p_pipes := [Line Stderr (nl "sh: 1: not found"); Eof Stdout; Eof Stderr];
       p_exit := Some (127, (1 # 1000)%Q) |}.

Definition demo_host : host :=
  {| h_chdir := fun d => if str_eqb d (u "/nonexistent") then Some ENOENT else None;
     h_sh := demo_sh;
     h_kill_latency := (1 # 100)%Q |}.

Definition demo_dir : str := u "/srv/qubes-kvm".

(** [json.loads] on the texts the examples use; any other text is taken
    as undecodable. *)
Definition demo_loads (data : str) : Result json :=
  if str_eqb data (js "{'command': 'echo hello'}") then
    Ok (JObj [(u "command", JStr (u "echo hello"))])
  else if str_eqb data (js "{'command': 'both'}") then
    Ok (JObj [(u "command", JStr (u "both"))])
  else if str_eqb data (js "{'command': 'ls', 'cwd': '/nonexistent'}") then
    Ok (JObj [(u "command", JStr (u "ls")); (u "cwd", JStr (u "/nonexistent"))])
  else if str_eqb data (js "{'command': 'sleep 1000'}") then
    Ok (JObj [(u "command", JStr (u "sleep 1000"))])
  else if str_eqb data (js "{}") then Ok (JObj [])
  else Raise JSONDecodeError.

(** Sample texts: two lines; a line with a Windows line end. *)
Definition demo_text : str := u "one" ++ [10] ++ u "two".

(** The round of [both] in a session where the peer stays, and in one
    where the peer takes a single frame and is gone. *)
Definition demo_round : round :=
  {| rd_data := js "{'command': 'both'}";
     rd_events :=
       [EvSpawn (u "both") (Some demo_dir);
        EvSend (OutputLine Stdout (u "a")); EvSend (OutputLine Stderr (u "x"));
        EvSend (OutputLine Stdout (u "b")); EvEof Stderr; EvEof Stdout;
        EvWait 3; EvSend (Completion 3)];
     rd_status := Ok tt |}.

Definition demo_cut_round : round :=
  {| rd_data := js "{'command': 'both'}";
     rd_events := [EvSpawn (u "both") (Some demo_dir); EvSend (OutputLine Stdout (u "a"))];
     rd_status := Raise WebSocketDisconnect |}.

(** ** The bridge endpoints *)

(** The agent's view of the host for an endpoint that looks at the file
    system and then runs a command. *)
Record world := {
  w_fs : filesystem;
  w_clock : Q;
}.

Definition on_fs {A} (c : M filesystem A) : M world A :=
  fun w => let '(r, fs') := c (w_fs w) in
           (r, {| w_fs := fs'; w_clock := w_clock w |}).

Definition on_clock {A} (c : M Q A) : M world A :=
  fun w => let '(r, now') := c (w_clock w) in
           (r, {| w_fs := w_fs w; w_clock := now' |}).

(** [{"output": .., "exit_code": ..}] *)
Record BridgeResponse := {
  br_output : str;
  br_exit_code : Z;
}.

Section Bridge.

Variable h : host.
Variable PROJECT_DIR : str.
(** [str(BRIDGE_SCRIPT)], and the place in the file system it names. *)
Variable BRIDGE_SCRIPT : str.
Variable BRIDGE_SCRIPT_path : path.

Definition list_vms : M world BridgeResponse :=
  e <- on_fs (exists_ BRIDGE_SCRIPT_path) ;;
  if negb e then raise (HTTPException 404) else
  result <- on_clock (run_cmd h PROJECT_DIR (u "bash " ++ BRIDGE_SCRIPT ++ u " list")
                        (Some PROJECT_DIR) 300) ;;
  ret {| br_output := stdout result; br_exit_code := exit_code result |}.

Definition list_gpu : M world BridgeResponse :=
  e <- on_fs (exists_ BRIDGE_SCRIPT_path) ;;
  if negb e then raise (HTTPException 404) else
  result <- on_clock (run_cmd h PROJECT_DIR (u "bash " ++ BRIDGE_SCRIPT ++ u " gpu-list")
                        (Some PROJECT_DIR) 300) ;;
  ret {| br_output := stdout result; br_exit_code := exit_code result |}.

End Bridge.

(** ** More vocabulary for the statements *)

(** A file system is a tree: whatever exists lies in a directory. *)
Definition tree (fs : filesystem) : Prop :=
  forall p n, node_at fs p = Some n -> node_at fs (parent p) = Some Dir.

(** A path without [..], [.] and empty components: it names the place its
    components spell. *)
Definition resolved (p : path) : Prop :=
  Forall (fun c => c <> [] /\ c <> u "." /\ c <> u "..") p.

(** The text of the frame sent for a line. *)
Definition line_text (raw : bytes) : str := rstrip 10 (decode_replace raw).

(** What a child writes on one channel before it closes it. *)
Fixpoint delivered (ch : channel) (items : list pipe_item) : list bytes :=
  match items with
  | [] => []
  | Line c raw :: r =>
      if channel_eqb c ch then raw :: delivered ch r else delivered ch r
  | Eof c :: r => if channel_eqb c ch then [] else delivered ch r
  end.

(** The texts of the output frames sent for one channel, in order. *)
Fixpoint sent_on (ch : channel) (evs : list event) : list str :=
  match evs with
  | [] => []
  | EvSend (OutputLine c t) :: r =>
      if channel_eqb c ch then t :: sent_on ch r else sent_on ch r
  | _ :: r => sent_on ch r
  end.


(** A sample tree and a sample invalid text (a lone surrogate). *)
Definition demo_fs : filesystem :=
  <[ [u "tmp"; u "notes.txt"] := File (u "old") ]> (<[ [u "tmp"] := Dir ]> ∅).

Definition demo_surrogate : str := [0xD800].


(** A host on which no command ends, and one on which every command starts
    with a line longer than the stream reader takes. *)
Definition demo_slow_host : host :=
  {| h_chdir := fun _ => None;
     h_sh := fun _ _ => {| p_pipes := []; p_exit := None |};
     h_kill_latency := (1 # 100)%Q |}.



Definition demo_bridge : str := u "/srv/qubes-kvm/scripts/xen-kvm-bridge.sh".

Definition demo_world : world := {| w_fs := demo_fs; w_clock := 0%Q |}.

(** [json.loads] on three more texts: a list, an object whose command is
    a number, and an object that names a working directory only. *)
Definition demo_loads_more (data : str) : Result json :=
  if str_eqb data (js "[1]") then Ok (JArr [JInt 1])
  else if str_eqb data (js "{'command': 5}") then Ok (JObj [(u "command", JInt 5)])
  else if str_eqb data (js "{'cwd': '/nonexistent'}") then
    Ok (JObj [(u "cwd", JStr (u "/nonexistent"))])
  else demo_loads data.

(** ** Facts about Python values *)

(** Case analysis on the integer comparisons of a goal, discarding the
    impossible branches. *)
Ltac zcase :=
  match goal with
  | |- context [Z.eqb ?a ?b] => destruct (Z.eqb_spec a b)
  | |- context [Z.ltb ?a ?b] => destruct (Z.ltb_spec a b)
  | |- context [Z.leb ?a ?b] => destruct (Z.leb_spec a b)
  end; try (exfalso; lia).

Ltac zcase_in H :=
  match type of H with
  | context [Z.eqb ?a ?b] => destruct (Z.eqb_spec a b)
  | context [Z.ltb ?a ?b] => destruct (Z.ltb_spec a b)
  | context [Z.leb ?a ?b] => destruct (Z.leb_spec a b)
  end; try (exfalso; lia).

(** Induction two elements at a time, for functions that look one element
    ahead. *)
Lemma list_ind2 {A} (P : list A -> Prop) :
  P [] -> (forall a, P [a]) ->
  (forall a b l, P l -> P (b :: l) -> P (a :: b :: l)) ->
  forall l, P l.
Proof.
  intros H0 H1 H2 l.
  enough (P l /\ forall a, P (a :: l)) by tauto.
  induction l as [|b l [IHl IHbl]]; split; auto.
Qed.









(** Joining the lines kept with their ends gives the text back. *)
Lemma concat_splitlines_from s : forall cur,
  concat (splitlines_from true cur s) = cur ++ s.
Proof.
  induction s as [| a | a b l IHl IHbl] using list_ind2; intros cur.
  - simpl. destruct cur; simpl; rewrite ?app_nil_r; reflexivity.
  - simpl. destruct (a =? 13) eqn:E13.
    + apply Z.eqb_eq in E13 as ->. simpl. rewrite app_nil_r. reflexivity.
    + destruct (is_linebreak a); simpl.
      * rewrite app_nil_r. reflexivity.
      * destruct (cur ++ [a]) eqn:E; simpl; rewrite ?app_nil_r; reflexivity.
  - remember (b :: l) as bl eqn:Ebl. cbn [splitlines_from].
    destruct bl as [|d r']; [discriminate|]. injection Ebl as -> ->.
    destruct (a =? 13) eqn:E13.
    + apply Z.eqb_eq in E13 as ->.
      destruct (b =? 10) eqn:E10.
      * apply Z.eqb_eq in E10 as ->. cbn [concat]. rewrite IHl.
        rewrite <- app_assoc. reflexivity.
      * cbn [concat]. rewrite IHbl. rewrite <- app_assoc. reflexivity.
    + destruct (is_linebreak a).
      * cbn [concat]. rewrite IHbl. rewrite <- app_assoc. reflexivity.
      * rewrite IHbl. rewrite <- app_assoc. reflexivity.
Qed.

Lemma concat_splitlines s : concat (splitlines true s) = s.
Proof. apply concat_splitlines_from. Qed.

Lemma splitlines_from_nonempty k cur s :
  cur <> [] -> splitlines_from k cur s <> [].
Proof.
  revert cur. induction s as [|a s IH]; intros cur Hc; simpl.
  - destruct cur; congruence.
  - destruct (a =? 13); [destruct s as [|d s']; [|destruct (d =? 10)]; discriminate|].
    destruct (is_linebreak a); [discriminate|].
    apply IH. destruct cur; discriminate.
Qed.




(** Every character takes at least one byte, and every character outside
    ASCII at least two. *)
Lemma utf8_encode_char_length c e :
  utf8_encode_char c = Some e ->
  1 <= len e /\ (0x80 <= c -> 2 <= len e).
Proof.
  unfold utf8_encode_char. intros He.
  repeat (zcase_in He; simpl in He); try discriminate;
    injection He as <-; unfold len; simpl; lia.
Qed.

Lemma utf8_encode_length s : forall data,
  utf8_encode s = Some data ->
  len s <= len data /\ (Exists (fun c => 0x80 <= c) s -> len s < len data).
Proof.
  induction s as [|c s IH]; intros data; simpl.
  - intros [= <-]. split; [reflexivity|]. intros H. inversion H.
  - destruct (utf8_encode_char c) as [e|] eqn:Ec; [|discriminate].
    destruct (utf8_encode s) as [er|]; [|discriminate].
    intros [= <-]. destruct (IH er eq_refl) as [Hle Hlt].
    destruct (utf8_encode_char_length _ _ Ec) as [H1 H2].
    unfold len in *. rewrite length_app. simpl length.
    split; [lia|]. intros Hex. inversion Hex as [? ? Hc|? ? Hs]; subst.
    + specialize (H2 Hc). lia.
    + specialize (Hlt Hs). lia.
Qed.

(** ** The file endpoints *)

(** Unfold the plumbing of [M]. *)
Ltac monad_red :=
  cbv beta iota delta [bind ret raise block get put lift try_except negb].

Section FileFacts.

Variable Path_expanduser : str -> path.

Lemma parent_neq (p : path) : p <> [] -> parent p <> p.
Proof.
  intros Hp Heq. apply (f_equal (@length str)) in Heq.
  unfold parent in Heq. rewrite removelast_firstn_len, length_take in Heq.
  destruct p as [|a p]; [congruence|]. simpl in Heq. lia.
Qed.

(** A write that returns has stored the encoded content at the path, whatever
    was there, in a directory that exists, and reports the number of
    characters of the content. *)
Lemma write_text_stores p content fs n fs' :
  write_text p content fs = (Ok n, fs') ->
  exists data,
    utf8_encode content = Some data /\
    fs' = <[p := File data]> fs /\
    node_at fs' p = Some (File data) /\
    node_at fs' (parent p) = Some Dir /\
    n = len content.
Proof.
  unfold write_text, bind, get, put, raise, ret.
  assert (p = [] \/ p <> []) as [->|Hne] by (destruct p; [left|right]; congruence).
  { simpl. discriminate. }
  destruct (node_at fs p) as [[d|]|] eqn:Hp;
    try discriminate;
    (destruct (node_at fs (parent p)) as [[d'|]|] eqn:Hpar; try discriminate;
     destruct (utf8_encode content) as [data|]; try discriminate;
     intros [= <- <-]; exists data;
     rewrite insert_insert_eq; repeat split; try reflexivity;
     [destruct p; [congruence | apply lookup_insert_eq]|];
     unfold node_at in *; destruct (parent p) eqn:Epar; [reflexivity|];
     rewrite lookup_insert_ne; [exact Hpar|];
     rewrite <- Epar; intros Heq; symmetry in Heq; exact (parent_neq p Hne Heq)).
Qed.

Lemma write_file_stores req fs w fs' :
  write_file Path_expanduser req fs = (Ok w, fs') ->
  exists data,
    utf8_encode (fw_content req) = Some data /\
    node_at fs' (Path_expanduser (fw_path req)) = Some (File data) /\
    node_at fs' (parent (Path_expanduser (fw_path req))) = Some Dir /\
    w = {| wr_path := Path_expanduser (fw_path req);
           wr_bytes_written := len (fw_content req) |}.
Proof.
  unfold write_file, bind.
  destruct (mkdir_parents _ fs) as [[[]|e|] fs1]; try discriminate.
  destruct (write_text _ _ fs1) as [[n|e|] fs2] eqn:Hw; try discriminate.
  unfold ret. intros [= <- <-].
  destruct (write_text_stores _ _ _ _ _ Hw) as (data & He & _ & Hn & Hd & _).
  exists data. auto.
Qed.

(** The number [write_file] reports is the number of characters of the
    content; the file holds at least as many bytes, and more as soon as one
    character is outside ASCII. *)
Lemma write_file_reports_characters req fs w fs' :
  write_file Path_expanduser req fs = (Ok w, fs') ->
  exists data,
    node_at fs' (Path_expanduser (fw_path req)) = Some (File data) /\
    wr_bytes_written w = len (fw_content req) /\
    wr_bytes_written w <= len data /\
    (Exists (fun c => 0x80 <= c) (fw_content req) -> wr_bytes_written w < len data).
Proof.
  intros Hw. destruct (write_file_stores _ _ _ _ Hw) as (data & He & Hn & _ & ->).
  destruct (utf8_encode_length _ _ He) as [Hle Hlt].
  exists data. simpl. auto.
Qed.



End FileFacts.



(** C9 at a content with a non-ASCII character: the file receives two
    bytes, the response says [bytes_written = 1]. *)
Lemma bytes_written_is_character_count :
  fst (write_file posix_path {| fw_path := u "/tmp/note.txt"; fw_content := [0xE9] |} ∅)
  = Ok {| wr_path := [u "tmp"; u "note.txt"]; wr_bytes_written := 1 |} /\
  snd (write_file posix_path {| fw_path := u "/tmp/note.txt"; fw_content := [0xE9] |} ∅)
    !! [u "tmp"; u "note.txt"] = Some (File [0xC3; 0xA9]) /\
  len [0xC3; 0xA9] = 2.
Proof. vm_compute. repeat split. Qed.

(** ** The command executor *)




Section ExecutorFacts.

Variable h : host.
Variable PROJECT_DIR : str.





End ExecutorFacts.




(** With a negative timeout the child is killed at once, also a child that
    would end in no time: the result is that of a timeout, and the duration
    is the time the kill took. *)
Lemma run_cmd_negative_timeout :
  run_cmd demo_host demo_dir (u "echo hello") None (-1) 0%Q
  = (Ok {| exit_code := 124; stdout := []; stderr := u "TIMEOUT"; duration_ms := 10 |},
     (0 + (0 + (1 # 100)))%Q).
Proof. vm_compute. reflexivity. Qed.


(** ** The streaming shell session *)

Section SessionFacts.

Variable json_loads : str -> Result json.
Variable h : host.
Variable PROJECT_DIR : str.


(** Starting the child either fails, leaving no trace, or records the
    spawn of the command in the directory asked for. *)
Lemma create_subprocess_shell_cases cmd cwd s res s' :
  create_subprocess_shell h cmd cwd s = (res, s') ->
  (s' = s /\ exists e, res = Raise e) \/
  (exists c d, cmd = JStr c /\
               res = Ok (h_sh h c d) /\
               s' = {| budget := budget s; trace := trace s ++ [EvSpawn c d] |}).
Proof.
  unfold create_subprocess_shell.
  destruct cmd as [| | | |c| |]; try (intros [= <- <-]; left; eauto).
  destruct (has_nul c); [intros [= <- <-]; left; eauto|].
  destruct cwd as [| | | |d| |];
    try solve [intros [= <- <-]; left; eauto | intros [= <- <-]; right; eauto].
  destruct (has_nul d); [intros [= <- <-]; left; eauto|].
  destruct (h_chdir h d); intros [= <- <-]; [left|right]; eauto.
Qed.

(** What the two drains leave in the trace. *)
Lemma gather_trace items : forall o e s res s',
  gather items o e s = (res, s') ->
  exists evs,
    trace s' = trace s ++ evs /\
    Forall (fun x => is_drain_event x = true) evs /\
    (budget s' <= budget s)%nat /\
    (res = Ok tt ->
     (o = true -> In (EvEof Stdout) evs) /\ (e = true -> In (EvEof Stderr) evs)).
Proof.
  induction items as [|it rest IH]; intros o e s res s' Hg.
  - exists []. rewrite app_nil_r.
    destruct o, e; simpl in Hg; injection Hg as <- <-;
      repeat split; auto; discriminate.
  - assert (o = false /\ e = false \/ (o = true \/ e = true)) as [[-> ->]|Hopen]
      by (destruct o, e; auto).
    { simpl in Hg. injection Hg as <- <-. exists []. rewrite app_nil_r.
      repeat split; auto; discriminate. }
    assert (gather (it :: rest) o e =
            match it with
            | Line ch raw =>
                if is_open ch o e
                then (_ <- stream ch raw ;; gather rest o e)
                else gather rest o e
            | Eof ch =>
                if is_open ch o e
                then (_ <- emit (EvEof ch) ;;
                      match ch with
                      | Stdout => gather rest false e
                      | Stderr => gather rest o false
                      end)
                else gather rest o e
            end) as Hstep.
    { destruct o, e, it as [ch raw|ch]; try reflexivity;
        destruct Hopen; discriminate. }
    rewrite Hstep in Hg. clear Hstep.
    destruct it as [ch raw|ch].
    + destruct (is_open ch o e); [|eauto].
      unfold bind, stream, raise in Hg.
      destruct (line_limit <? len (line_body raw)).
      { injection Hg as <- <-. exists []. rewrite app_nil_r.
        repeat split; auto; discriminate. }
      unfold send_json in Hg. destruct (budget s) as [|b] eqn:Hb.
      { injection Hg as <- <-. exists []. rewrite app_nil_r.
        repeat split; auto; try lia; discriminate. }
      apply IH in Hg as (evs & Ht & Hf & Hle & Hok). simpl in *.
      exists (EvSend (OutputLine ch (rstrip 10 (decode_replace raw))) :: evs).
      rewrite Ht, <- app_assoc. repeat split; auto; try lia;
        intros; right; apply Hok; auto.
    + destruct (is_open ch o e) eqn:Hopen'; [|eauto].
      unfold bind, emit in Hg.
      destruct ch; apply IH in Hg as (evs & Ht & Hf & Hle & Hok); simpl in *;
        [exists (EvEof Stdout :: evs) | exists (EvEof Stderr :: evs)];
        rewrite Ht, <- app_assoc;
        (repeat split; auto; try lia; intros; simpl; auto;
         right; apply Hok; auto).
Qed.

Ltac not_ok := let H := fresh in intros H; discriminate H.

(** The events of one submission have one of the four shapes, by how its
    handling ended. *)
Lemma handle_round_shape data n res s' :
  handle json_loads h PROJECT_DIR data {| budget := n; trace := [] |} = (res, s') ->
  round_shape res (trace s') /\ (budget s' <= n)%nat.
Proof.
  unfold handle. intros H.
  cbv beta iota delta [bind lift] in H.
  destruct (json_loads data) as [msg|e|];
    [|injection H as <- <-; split; [apply shape_unspawned; not_ok | simpl; lia]..].
  destruct (msg_get msg (u "command") (JStr [])) as [cmd|e|];
    [|injection H as <- <-; split; [apply shape_unspawned; not_ok | simpl; lia]..].
  destruct (msg_get msg (u "cwd") (JStr PROJECT_DIR)) as [cwd|e|];
    [|injection H as <- <-; split; [apply shape_unspawned; not_ok | simpl; lia]..].
  destruct (create_subprocess_shell h cmd cwd _) as [rp s1] eqn:Hc.
  apply create_subprocess_shell_cases in Hc as [[-> [e ->]]|(c & d & -> & -> & ->)].
  { injection H as <- <-. split; [apply shape_unspawned; not_ok | simpl; lia]. }
  cbn [trace budget app] in H.
  destruct (gather _ _ _ _) as [rg s2] eqn:Hg.
  apply gather_trace in Hg as (evs & Ht & Hf & Hle & Hok). cbn [trace budget app] in *.
  destruct rg as [[]|e|];
    [|injection H as <- <-; rewrite Ht; split; [apply shape_draining; [not_ok|auto] | lia]..].
  destruct (Hok eq_refl) as [Ho He]. specialize (Ho eq_refl). specialize (He eq_refl).
  unfold proc_wait in H.
  destruct (p_exit (h_sh h c d)) as [[rc t]|].
  2:{ cbv beta iota delta [block] in H. injection H as <- <-. rewrite Ht.
      split; [apply shape_draining; [not_ok|auto] | lia]. }
  cbv beta iota delta [bind emit ret send_json] in H. cbn [trace budget] in H.
  destruct (budget s2) as [|b] eqn:Hb; injection H as <- <-; cbn [trace budget];
    rewrite Ht; cbn [app]; split; try lia.
  - apply shape_reaped; auto.
  - rewrite <- app_assoc. apply shape_completed; auto.
Qed.

(** Every round of a session has one of the four shapes. *)
Lemma ws_shell_round_shapes inbox : forall frames rounds fin r,
  ws_shell json_loads h PROJECT_DIR inbox frames = (rounds, fin) ->
  In r rounds ->
  round_shape (rd_status r) (rd_events r).
Proof.
  induction inbox as [|data rest IH]; intros frames rounds fin r Hs Hin.
  - injection Hs as <- <-. destruct Hin.
  - cbn [ws_shell] in Hs.
    destruct (handle json_loads h PROJECT_DIR data _) as [res s] eqn:Hh.
    apply handle_round_shape in Hh as [Hshape _].
    destruct res as [[]|e|].
    + destruct (ws_shell json_loads h PROJECT_DIR rest (budget s)) as [rs fin'] eqn:Hr.
      injection Hs as <- <-. destruct Hin as [<-|Hin]; [exact Hshape|].
      eapply IH; eauto.
    + assert (rounds = [{| rd_data := data; rd_events := trace s; rd_status := Raise e |}])
        as -> by (destruct e; injection Hs as <- _; reflexivity).
      destruct Hin as [<-|[]]. exact Hshape.
    + injection Hs as <- <-. destruct Hin as [<-|[]]. exact Hshape.
Qed.


(** A round whose handling was ended by the disconnect is the last one, and
    the handler returns. *)
Lemma ws_shell_disconnect_returns inbox : forall frames rounds fin r,
  ws_shell json_loads h PROJECT_DIR inbox frames = (rounds, fin) ->
  In r rounds ->
  rd_status r = Raise WebSocketDisconnect ->
  fin = Returned.
Proof.
  induction inbox as [|data rest IH]; intros frames rounds fin r Hs Hin Hr.
  - injection Hs as <- <-. destruct Hin.
  - cbn [ws_shell] in Hs.
    destruct (handle json_loads h PROJECT_DIR data _) as [res s].
    destruct res as [[]|e|].
    + destruct (ws_shell json_loads h PROJECT_DIR rest (budget s)) as [rs fin'] eqn:Hrest.
      injection Hs as <- <-. destruct Hin as [<-|Hin]; [discriminate Hr|].
      eapply IH; eauto.
    + destruct e; injection Hs as <- <-; destruct Hin as [<-|[]];
        solve [reflexivity | discriminate Hr].
    + injection Hs as <- <-. destruct Hin as [<-|[]]. discriminate Hr.
Qed.

(** Every round of a session is what [handle] did with its text, from an
    empty trace. *)
Lemma ws_shell_rounds_handle inbox : forall frames rounds fin r,
  ws_shell json_loads h PROJECT_DIR inbox frames = (rounds, fin) ->
  In r rounds ->
  exists n s',
    handle json_loads h PROJECT_DIR (rd_data r) {| budget := n; trace := [] |}
    = (rd_status r, s') /\
    rd_events r = trace s'.
Proof.
  induction inbox as [|data rest IH]; intros frames rounds fin r Hs Hin.
  - injection Hs as <- <-. destruct Hin.
  - cbn [ws_shell] in Hs.
    destruct (handle json_loads h PROJECT_DIR data _) as [res s] eqn:Hh.
    destruct res as [[]|e|].
    + destruct (ws_shell json_loads h PROJECT_DIR rest (budget s)) as [rs fin'] eqn:Hr.
      injection Hs as <- <-. destruct Hin as [<-|Hin]; [eauto|].
      eapply IH; eauto.
    + assert (rounds = [{| rd_data := data; rd_events := trace s; rd_status := Raise e |}])
        as -> by (destruct e; injection Hs as <- _; reflexivity).
      destruct Hin as [<-|[]]. eauto.
    + injection Hs as <- <-. destruct Hin as [<-|[]]. eauto.
Qed.


(** C3, as the code has it.  A submission that does not decode ends the
    session: [json.loads] raises, nothing in the loop catches it, the
    handler is left with the exception; no frame is sent and no later
    submission is read. *)
Theorem decode_failure_ends_session data rest frames :
  json_loads data = Raise JSONDecodeError ->
  ws_shell json_loads h PROJECT_DIR (data :: rest) frames
  = ([{| rd_data := data; rd_events := []; rd_status := Raise JSONDecodeError |}],
     Crashed JSONDecodeError).
Proof.
  intros Hd. cbn [ws_shell]. unfold handle.
  cbv beta iota delta [bind lift]. rewrite Hd. reflexivity.
Qed.

Lemma create_subprocess_shell_ok c cwd dir s :
  has_nul c = false -> spawn_dir h cwd = Some dir ->
  create_subprocess_shell h (JStr c) cwd s
  = (Ok (h_sh h c dir), {| budget := budget s; trace := trace s ++ [EvSpawn c dir] |}).
Proof.
  intros Hc Hd. unfold create_subprocess_shell, spawn_dir in *. rewrite Hc.
  destruct cwd as [| | | |d| |]; try discriminate.
  - injection Hd as <-. reflexivity.
  - destruct (has_nul d); [discriminate|].
    destruct (h_chdir h d); [discriminate|]. injection Hd as <-. reflexivity.
Qed.

(** C4, as the code has it.  A submission whose working directory cannot be
    entered ends the session: the error of the spawn is not caught, the
    handler is left with it; no frame at all is sent for the submission, no
    child runs, and no later submission is read. *)
Theorem spawn_failure_ends_session data msg c d err rest frames :
  json_loads data = Ok msg ->
  msg_get msg (u "command") (JStr []) = Ok (JStr c) ->
  msg_get msg (u "cwd") (JStr PROJECT_DIR) = Ok (JStr d) ->
  has_nul c = false -> has_nul d = false ->
  h_chdir h d = Some err ->
  ws_shell json_loads h PROJECT_DIR (data :: rest) frames
  = ([{| rd_data := data; rd_events := []; rd_status := Raise (OSError err) |}],
     Crashed (OSError err)).
Proof.
  intros Hd Hcmd Hcwd Hc Hn Herr. cbn [ws_shell]. unfold handle.
  cbv beta iota delta [bind lift]. rewrite Hd, Hcmd, Hcwd.
  unfold create_subprocess_shell. rewrite Hc, Hn, Herr. reflexivity.
Qed.

(** C5, as the code has it.  The session never sends a signal to a child.
    When the peer's disconnect ends the handling of a submission before
    both pipes have ended, the child is not waited for either: it is left
    as it is, and the handler returns. *)
Theorem disconnect_leaves_child inbox frames rounds fin r :
  ws_shell json_loads h PROJECT_DIR inbox frames = (rounds, fin) ->
  In r rounds ->
  (forall signal, ~ In (EvSignal signal) (rd_events r)) /\
  (rd_status r = Raise WebSocketDisconnect ->
   fin = Returned /\
   (~ (In (EvEof Stdout) (rd_events r) /\ In (EvEof Stderr) (rd_events r)) ->
    forall rc, ~ In (EvWait rc) (rd_events r))).
Proof.
  intros Hs Hin.
  pose proof (ws_shell_round_shapes _ _ _ _ _ Hs Hin) as Hshape.
  assert (forall evs e, Forall (fun e => is_drain_event e = true) evs ->
                        is_drain_event e = false -> ~ In e evs) as Hnot.
  { intros evs e Hf He Hi. rewrite List.Forall_forall in Hf. apply Hf in Hi. congruence. }
  split.
  - intros signal Hi.
    inversion Hshape as [res Hne Hr He|res cmd cwd evs Hne Hf Hr He
                        |cmd cwd evs rc Hf Ho He' Hr He|cmd cwd evs rc Hf Ho He' Hr He];
      rewrite <- He in Hi; simpl in Hi; try tauto;
      destruct Hi as [Hi|Hi]; try discriminate;
      rewrite ?in_app_iff in Hi; simpl in Hi;
      repeat (destruct Hi as [Hi|Hi]; try discriminate; try tauto);
      apply (Hnot evs (EvSignal signal) Hf eq_refl Hi).
  - intros Hr. split; [eapply ws_shell_disconnect_returns; eauto|].
    intros Hopen rc Hi.
    inversion Hshape as [res Hne Hr' He|res cmd cwd evs Hne Hf Hr' He
                        |cmd cwd evs rc' Hf Ho He' Hr' He|cmd cwd evs rc' Hf Ho He' Hr' He];
      rewrite <- He in Hi, Hopen; simpl in Hi; try tauto.
    + destruct Hi as [Hi|Hi]; [discriminate|].
      apply (Hnot evs (EvWait rc) Hf eq_refl Hi).
    + apply Hopen. split; right; apply in_app_iff; auto.
    + rewrite Hr in Hr'. discriminate.
Qed.

End SessionFacts.

Section SessionRuns.

Variable json_loads : str -> Result json.
Variable h : host.
Variable PROJECT_DIR : str.


Lemma gather_closed items s : gather items false false s = (Ok tt, s).
Proof. destruct items; reflexivity. Qed.

Lemma gather_step it rest o e :
  o = true \/ e = true ->
  gather (it :: rest) o e =
  match it with
  | Line ch raw =>
      if is_open ch o e
      then (_ <- stream ch raw ;; gather rest o e)
      else gather rest o e
  | Eof ch =>
      if is_open ch o e
      then (_ <- emit (EvEof ch) ;;
            match ch with
            | Stdout => gather rest false e
            | Stderr => gather rest o false
            end)
      else gather rest o e
  end.
Proof.
  intros Hopen. destruct o, e, it as [ch raw|ch]; try reflexivity;
    destruct Hopen; discriminate.
Qed.

(** The drains of a child that writes nothing and closes both pipes end,
    cost no frame, and leave only ends of stream in the trace. *)
Lemma gather_silent items : forall o e s,
  Forall (fun it => is_line it = false) items ->
  (o = true -> closes Stdout items = true) ->
  (e = true -> closes Stderr items = true) ->
  exists eofs,
    gather items o e s = (Ok tt, {| budget := budget s; trace := trace s ++ eofs |}) /\
    Forall (fun x => exists ch, x = EvEof ch) eofs.
Proof.
  induction items as [|it rest IH]; intros o e s Hsil Ho He.
  - simpl in Ho, He. destruct o; [discriminate (Ho eq_refl)|].
    destruct e; [discriminate (He eq_refl)|].
    exists []. rewrite app_nil_r. destruct s; auto.
  - assert (o = false /\ e = false \/ (o = true \/ e = true)) as [[-> ->]|Hopen]
      by (destruct o, e; auto).
    { exists []. rewrite app_nil_r, gather_closed. destruct s; auto. }
    rewrite gather_step by exact Hopen.
    inversion Hsil as [|? ? Hit Hrest]; subst.
    destruct it as [ch raw|ch]; [discriminate Hit|].
    simpl in Ho, He. destruct (is_open ch o e) eqn:Hch.
    + unfold bind, emit.
      destruct ch; cbn [is_open] in Hch; subst.
      * destruct (IH false e {| budget := budget s; trace := trace s ++ [EvEof Stdout] |}
                    Hrest) as (eofs & -> & Hf); auto; [discriminate|].
        exists (EvEof Stdout :: eofs). cbn [budget trace]. rewrite <- app_assoc.
        split; [reflexivity|]. constructor; eauto.
      * destruct (IH o false {| budget := budget s; trace := trace s ++ [EvEof Stderr] |}
                    Hrest) as (eofs & -> & Hf); auto; [discriminate|].
        exists (EvEof Stderr :: eofs). cbn [budget trace]. rewrite <- app_assoc.
        split; [reflexivity|]. constructor; eauto.
    + apply IH; auto.
      * intros ->. destruct ch; cbn [is_open] in Hch; [discriminate|].
        apply Ho. reflexivity.
      * intros ->. destruct ch; cbn [is_open] in Hch.
        -- apply He. reflexivity.
        -- destruct o; discriminate.
Qed.

(** The drains of a child that closes both pipes, writes only lines the
    reader accepts, and no more of them than the peer still takes, end. *)
Lemma gather_completes items : forall o e s,
  Forall line_ok items ->
  (o = true -> closes Stdout items = true) ->
  (e = true -> closes Stderr items = true) ->
  (count_lines items <= budget s)%nat ->
  exists s',
    gather items o e s = (Ok tt, s') /\
    (budget s <= budget s' + count_lines items)%nat.
Proof.
  induction items as [|it rest IH]; intros o e s Hok Ho He Hb.
  - simpl in Ho, He. destruct o; [discriminate (Ho eq_refl)|].
    destruct e; [discriminate (He eq_refl)|].
    exists s. split; [reflexivity|lia].
  - assert (o = false /\ e = false \/ (o = true \/ e = true)) as [[-> ->]|Hopen]
      by (destruct o, e; auto).
    { exists s. rewrite gather_closed. split; [reflexivity|lia]. }
    rewrite gather_step by exact Hopen.
    inversion Hok as [|? ? Hit Hrest]; subst.
    unfold count_lines in *. destruct it as [ch raw|ch]; cbn [List.filter is_line length] in *.
    + destruct (is_open ch o e).
      * unfold bind, stream. simpl in Hit.
        destruct (Z.ltb_spec line_limit (len (line_body raw))) as [|_]; [lia|].
        unfold send_json. destruct (budget s) as [|b] eqn:Hbs; [lia|].
        edestruct (IH o e {| budget := b;
                             trace := trace s ++ [EvSend (OutputLine ch
                                        (rstrip 10 (decode_replace raw)))] |} Hrest)
          as (s' & -> & Hle); auto; [cbn [budget]; lia|].
        exists s'. split; [reflexivity|]. cbn [budget] in Hle. lia.
      * edestruct (IH o e s Hrest) as (s' & -> & Hle); auto; [lia|].
        exists s'. split; [reflexivity|]. lia.
    + simpl in Ho, He. destruct (is_open ch o e) eqn:Hch.
      * unfold bind, emit.
        destruct ch; cbn [is_open] in Hch; subst.
        -- edestruct (IH false e {| budget := budget s; trace := trace s ++ [EvEof Stdout] |}
                        Hrest) as (s' & -> & Hle); auto; [discriminate|].
           exists s'. split; [reflexivity|]. cbn [budget] in Hle. lia.
        -- edestruct (IH o false {| budget := budget s; trace := trace s ++ [EvEof Stderr] |}
                        Hrest) as (s' & -> & Hle); auto; [discriminate|].
           exists s'. split; [reflexivity|]. cbn [budget] in Hle. lia.
      * edestruct (IH o e s Hrest) as (s' & -> & Hle); auto.
        -- intros ->. destruct ch; cbn [is_open] in Hch; [discriminate|].
           apply Ho. reflexivity.
        -- intros ->. destruct ch; cbn [is_open] in Hch.
           ++ apply He. reflexivity.
           ++ destruct o; discriminate.
        -- exists s'. split; [reflexivity|]. lia.
Qed.

(** A submission that names a command whose child can be started, closes
    both pipes, writes only lines the reader accepts, exits, and writes
    fewer lines than the peer still takes frames, is handled to its end. *)
Lemma handle_completes data msg c cwd dir rc t frames :
  json_loads data = Ok msg ->
  msg_get msg (u "command") (JStr []) = Ok (JStr c) ->
  msg_get msg (u "cwd") (JStr PROJECT_DIR) = Ok cwd ->
  has_nul c = false ->
  spawn_dir h cwd = Some dir ->
  Forall line_ok (p_pipes (h_sh h c dir)) ->
  closes Stdout (p_pipes (h_sh h c dir)) = true ->
  closes Stderr (p_pipes (h_sh h c dir)) = true ->
  p_exit (h_sh h c dir) = Some (rc, t) ->
  (count_lines (p_pipes (h_sh h c dir)) < frames)%nat ->
  exists s', handle json_loads h PROJECT_DIR data {| budget := frames; trace := [] |} = (Ok tt, s').
Proof.
  intros Hd Hcmd Hcwd Hc Hdir Hok Ho He Hx Hb.
  unfold handle. cbv beta iota delta [bind lift].
  rewrite Hd, Hcmd, Hcwd, (create_subprocess_shell_ok h c cwd dir _ Hc Hdir).
  cbn [budget trace].
  edestruct (gather_completes (p_pipes (h_sh h c dir)) true true
               {| budget := frames; trace := [] ++ [EvSpawn c dir] |} Hok)
    as (s' & -> & Hle); auto; [cbn [budget]; lia|].
  cbn [budget] in Hle. unfold proc_wait. rewrite Hx.
  cbv beta iota delta [bind emit ret send_json]. cbn [budget trace].
  destruct (budget s') as [|b]; [lia|]. eexists. reflexivity.
Qed.








(** C10, as the code has it.  A submission that decodes as an object
    without a [command] field is served with the empty string as its
    command, provided the working directory it carries, or the project
    directory when it carries none, lets a child start: when the shell
    given the empty command writes nothing, closes its pipes and exits with
    status 0, the session starts it, sends the completion frame with exit
    code 0 as the only frame, and goes on to the next submission. *)
Theorem missing_command_runs_empty data fields dir t rest n :
  json_loads data = Ok (JObj fields) ->
  lookup_field (u "command") fields = None ->
  spawn_dir h (match lookup_field (u "cwd") fields with
               | Some v => v
               | None => JStr PROJECT_DIR
               end) = Some dir ->
  Forall (fun it => is_line it = false) (p_pipes (h_sh h [] dir)) ->
  closes Stdout (p_pipes (h_sh h [] dir)) = true ->
  closes Stderr (p_pipes (h_sh h [] dir)) = true ->
  p_exit (h_sh h [] dir) = Some (0, t) ->
  exists eofs,
    Forall (fun x => exists ch, x = EvEof ch) eofs /\
    ws_shell json_loads h PROJECT_DIR (data :: rest) (S n)
    = ({| rd_data := data;
          rd_events := EvSpawn [] dir :: eofs ++ [EvWait 0; EvSend (Completion 0)];
          rd_status := Ok tt |} :: fst (ws_shell json_loads h PROJECT_DIR rest n),
       snd (ws_shell json_loads h PROJECT_DIR rest n)).
Proof.
  intros Hd Hcmd Hdir Hsil Ho He Hx.
  destruct (gather_silent (p_pipes (h_sh h [] dir)) true true
              {| budget := S n; trace := [] ++ [EvSpawn [] dir] |} Hsil)
    as (eofs & Hg & Hf); auto.
  exists eofs. split; [exact Hf|].
  cbn [ws_shell]. unfold handle. cbv beta iota delta [bind lift].
  rewrite Hd. cbn [msg_get]. rewrite Hcmd.
  rewrite (create_subprocess_shell_ok h [] _ dir _ eq_refl Hdir).
  cbn [budget trace]. rewrite Hg.
  unfold proc_wait. rewrite Hx.
  cbv beta iota delta [bind emit ret send_json]. cbn [budget trace app].
  rewrite <- app_assoc. cbn [app].
  destruct (ws_shell json_loads h PROJECT_DIR rest n) as [rs fin]. reflexivity.
Qed.

End SessionRuns.

(** *** The sample session *)


Lemma decode_failure_ends_session_witness :
  ws_shell demo_loads demo_host demo_dir [u "{bad"; js "{'command': 'echo hello'}"] 10
  = ([{| rd_data := u "{bad"; rd_events := []; rd_status := Raise JSONDecodeError |}],
     Crashed JSONDecodeError).
Proof.
  apply (decode_failure_ends_session demo_loads demo_host demo_dir (u "{bad")).
  vm_compute. reflexivity.
Defined.

(** C3 as stated fails: after a text that does not decode the session is
    over, and the well-formed submission that follows, which the session
    would serve on its own, is never read. *)
Lemma session_dies_on_malformed_json :
  demo_loads (u "{bad") = Raise JSONDecodeError /\
  ws_shell demo_loads demo_host demo_dir [u "{bad"; js "{'command': 'echo hello'}"] 10
  = ([{| rd_data := u "{bad"; rd_events := []; rd_status := Raise JSONDecodeError |}],
     Crashed JSONDecodeError) /\
  map rd_status
      (fst (ws_shell demo_loads demo_host demo_dir [js "{'command': 'echo hello'}"] 10))
  = [Ok tt].
Proof. vm_compute. repeat split. Qed.

Lemma spawn_failure_ends_session_witness :
  ws_shell demo_loads demo_host demo_dir
    [js "{'command': 'ls', 'cwd': '/nonexistent'}"; js "{'command': 'echo hello'}"] 10
  = ([{| rd_data := js "{'command': 'ls', 'cwd': '/nonexistent'}";
         rd_events := [];
         rd_status := Raise (OSError ENOENT) |}],
     Crashed (OSError ENOENT)).
Proof.
  apply (spawn_failure_ends_session demo_loads demo_host demo_dir
           (js "{'command': 'ls', 'cwd': '/nonexistent'}")
           (JObj [(u "command", JStr (u "ls")); (u "cwd", JStr (u "/nonexistent"))])
           (u "ls") (u "/nonexistent") ENOENT);
    vm_compute; reflexivity.
Defined.

(** C4 as stated fails: for a working directory that does not exist the
    session sends no frame at all, neither an error nor a completion, and
    ends with the error of the spawn. *)
Lemma session_dies_silently_on_bad_cwd :
  ws_shell demo_loads demo_host demo_dir
    [js "{'command': 'ls', 'cwd': '/nonexistent'}"] 10
  = ([{| rd_data := js "{'command': 'ls', 'cwd': '/nonexistent'}";
         rd_events := [];
         rd_status := Raise (OSError ENOENT) |}],
     Crashed (OSError ENOENT)).
Proof. vm_compute. reflexivity. Qed.

Lemma disconnect_leaves_child_witness :
  (forall signal, ~ In (EvSignal signal) (rd_events demo_cut_round)) /\
  snd (ws_shell demo_loads demo_host demo_dir [js "{'command': 'both'}"] 1) = Returned /\
  (forall rc, ~ In (EvWait rc) (rd_events demo_cut_round)).
Proof.
  assert (ws_shell demo_loads demo_host demo_dir [js "{'command': 'both'}"] 1
          = (fst (ws_shell demo_loads demo_host demo_dir [js "{'command': 'both'}"] 1),
             snd (ws_shell demo_loads demo_host demo_dir [js "{'command': 'both'}"] 1)))
    as Hrun by (vm_compute; reflexivity).
  assert (In demo_cut_round
            (fst (ws_shell demo_loads demo_host demo_dir [js "{'command': 'both'}"] 1)))
    as Hin by (vm_compute; left; reflexivity).
  destruct (disconnect_leaves_child demo_loads demo_host demo_dir _ _ _ _ _ Hrun Hin)
    as [Hsig Hcut].
  destruct (Hcut eq_refl) as [Hret Hwait].
  split; [exact Hsig|]. split; [exact Hret|].
  apply Hwait. intros [[H|[H|[]]] _]; discriminate H.
Defined.

(** C5 as stated fails: the peer goes away after the first line of a child
    that has more to write; the session sends the child no signal and does
    not wait for it, it returns. *)
Lemma disconnect_neither_signals_nor_reaps :
  ws_shell demo_loads demo_host demo_dir [js "{'command': 'both'}"] 1
  = ([demo_cut_round], Returned) /\
  rd_events demo_cut_round
  = [EvSpawn (u "both") (Some demo_dir); EvSend (OutputLine Stdout (u "a"))] /\
  (forall signal, ~ In (EvSignal signal) (rd_events demo_cut_round)) /\
  (forall rc, ~ In (EvWait rc) (rd_events demo_cut_round)).
Proof.
  split; [vm_compute; reflexivity|]. split; [reflexivity|].
  split; intros x [H|[H|[]]]; discriminate H.
Qed.

(** C10 as stated fails on an object that has no [command] field and names
    a working directory that does not exist: no shell is started, no
    completion frame is sent, and the session ends with the error of the
    spawn, the next submission unread. *)
Lemma missing_command_with_bad_cwd :
  demo_loads_more (js "{'cwd': '/nonexistent'}")
  = Ok (JObj [(u "cwd", JStr (u "/nonexistent"))]) /\
  lookup_field (u "command") [(u "cwd", JStr (u "/nonexistent"))] = None /\
  ws_shell demo_loads_more demo_host demo_dir [js "{'cwd': '/nonexistent'}"; js "{}"] 10
  = ([{| rd_data := js "{'cwd': '/nonexistent'}";
         rd_events := [];
         rd_status := Raise (OSError ENOENT) |}],
     Crashed (OSError ENOENT)).
Proof. vm_compute. repeat split. Qed.

Lemma missing_command_runs_empty_witness :
  exists eofs,
    Forall (fun x => exists ch, x = EvEof ch) eofs /\
    ws_shell demo_loads demo_host demo_dir [js "{}"] 1
    = ({| rd_data := js "{}";
          rd_events := EvSpawn [] (Some demo_dir) :: eofs ++ [EvWait 0; EvSend (Completion 0)];
          rd_status := Ok tt |} :: fst (ws_shell demo_loads demo_host demo_dir [] 0),
       snd (ws_shell demo_loads demo_host demo_dir [] 0)).
Proof.
  apply (missing_command_runs_empty demo_loads demo_host demo_dir (js "{}") []
           (Some demo_dir) (1 # 1000)%Q [] 0%nat);
    try (vm_compute; reflexivity).
  vm_compute. repeat constructor.
Defined.

(** A child that writes nothing and does not end keeps the handler waiting,
    whether or not the peer is still there: the disconnect is noticed only
    by a send. *)
Lemma silent_child_blocks_session :
  snd (ws_shell demo_loads demo_host demo_dir [js "{'command': 'sleep 1000'}"] 0) = Hung.
Proof. vm_compute. reflexivity. Qed.

(** ** More on the file endpoints *)

Lemma universal_newlines_has_no_cr s : ~ In 13 (universal_newlines s).
Proof.
  induction s as [| a | a b l IHl IHbl] using list_ind2.
  - simpl. tauto.
  - simpl. destruct (Z.eqb_spec a 13); simpl; intros [H|[]]; lia.
  - remember (b :: l) as bl eqn:Ebl. cbn [universal_newlines].
    destruct (Z.eqb_spec a 13) as [->|Ha].
    + destruct bl as [|d r']; [discriminate|]. injection Ebl as -> ->.
      destruct (b =? 10); intros [H|H]; try lia; tauto.
    + subst bl. intros [H|H]; [lia|tauto].
Qed.

Lemma in_concat_drop {A} (x : A) n (l : list (list A)) :
  In x (concat (drop n l)) -> In x (concat l).
Proof.
  rewrite <- (take_drop n l) at 2. rewrite concat_app, in_app_iff. auto.
Qed.

Lemma in_concat_take {A} (x : A) n (l : list (list A)) :
  In x (concat (take n l)) -> In x (concat l).
Proof.
  rewrite <- (take_drop n l) at 2. rewrite concat_app, in_app_iff. auto.
Qed.

Lemma slice_from_pos {A} (i : Z) (l : list A) :
  0 <= i -> slice_from i l = drop (Z.to_nat i) l.
Proof.
  intros Hi. unfold slice_from, len.
  destruct (Z.ltb_spec i 0); [lia|].
  destruct (Z.le_gt_cases i (Z.of_nat (length l))).
  - rewrite Z.min_l by lia. reflexivity.
  - rewrite Z.min_r by lia. rewrite Nat2Z.id.
    rewrite !drop_ge by lia. reflexivity.
Qed.

Lemma slice_to_pos {A} (j : Z) (l : list A) :
  0 <= j -> slice_to j l = take (Z.to_nat j) l.
Proof.
  intros Hj. unfold slice_to, len.
  destruct (Z.ltb_spec j 0); [lia|].
  destruct (Z.le_gt_cases j (Z.of_nat (length l))).
  - rewrite Z.min_l by lia. reflexivity.
  - rewrite Z.min_r by lia. rewrite Nat2Z.id.
    rewrite !take_ge by lia. reflexivity.
Qed.

Section MoreFileFacts.

Variable Path_expanduser : str -> path.

(** What [read_file] computes on a regular file, for any offset and
    limit. *)
Lemma read_file_on_file req data fs :
  node_at fs (Path_expanduser (fr_path req)) = Some (File data) ->
  read_file Path_expanduser req fs
  = (Ok {| rr_path := Path_expanduser (fr_path req);
           rr_content :=
             concat
               (let lines := splitlines true (universal_newlines (decode_replace data)) in
                let lines := if 0 <? fr_offset req
                             then slice_from (fr_offset req) lines else lines in
                if 0 <? fr_limit req then slice_to (fr_limit req) lines else lines);
           rr_total_lines :=
             len (splitlines false (universal_newlines (decode_replace data))) |},
     fs).
Proof.
  intros Hn. unfold read_file, exists_, is_file, read_text_replace. monad_red.
  repeat (rewrite Hn; monad_red). reflexivity.
Qed.

(** On anything but a regular file [read_file] raises. *)
Lemma read_file_not_file req fs :
  (forall data, node_at fs (Path_expanduser (fr_path req)) <> Some (File data)) ->
  exists status,
    read_file Path_expanduser req fs = (Raise (HTTPException status), fs).
Proof.
  intros Hn.
  destruct (node_at fs (Path_expanduser (fr_path req))) as [[data|]|] eqn:E.
  - destruct (Hn data eq_refl).
  - exists 400. unfold read_file, exists_, is_file. monad_red.
    repeat (rewrite E; monad_red). reflexivity.
  - exists 404. unfold read_file, exists_. monad_red. rewrite E. reflexivity.
Qed.


(** X2.  An offset or limit that is zero or negative is ignored: the whole
    text of the file is returned (a negative number does not count from the
    end). *)
Theorem read_file_ignores_nonpositive req data fs :
  node_at fs (Path_expanduser (fr_path req)) = Some (File data) ->
  fr_offset req <= 0 -> fr_limit req <= 0 ->
  exists r,
    read_file Path_expanduser req fs = (Ok r, fs) /\
    rr_content r = universal_newlines (decode_replace data).
Proof.
  intros Hn Ho Hl. eexists. split; [apply (read_file_on_file _ _ _ Hn)|].
  cbn [rr_content].
  destruct (Z.ltb_spec 0 (fr_offset req)); [lia|].
  destruct (Z.ltb_spec 0 (fr_limit req)); [lia|].
  apply concat_splitlines.
Qed.

(** X3.  Pages fit together: the [k] lines from offset [a], followed by
    everything from offset [a + k], are everything from offset [a]. *)
Theorem read_file_pages_join P data fs a k :
  node_at fs (Path_expanduser P) = Some (File data) ->
  0 <= a -> 0 < k ->
  exists r1 r2 r,
    read_file Path_expanduser {| fr_path := P; fr_offset := a; fr_limit := k |} fs
      = (Ok r1, fs) /\
    read_file Path_expanduser {| fr_path := P; fr_offset := a + k; fr_limit := 0 |} fs
      = (Ok r2, fs) /\
    read_file Path_expanduser {| fr_path := P; fr_offset := a; fr_limit := 0 |} fs
      = (Ok r, fs) /\
    rr_content r1 ++ rr_content r2 = rr_content r.
Proof.
  intros Hn Ha Hk.
  do 3 eexists.
  split; [apply (read_file_on_file {| fr_path := P; fr_offset := a; fr_limit := k |}
                   data fs Hn)|].
  split; [apply (read_file_on_file {| fr_path := P; fr_offset := a + k; fr_limit := 0 |}
                   data fs Hn)|].
  split; [apply (read_file_on_file {| fr_path := P; fr_offset := a; fr_limit := 0 |}
                   data fs Hn)|].
  cbn [rr_content fr_offset fr_limit].
  set (lines := splitlines true (universal_newlines (decode_replace data))).
  change (0 <? 0) with false. cbv iota.
  destruct (Z.ltb_spec 0 (a + k)) as [_|]; [|lia].
  destruct (Z.ltb_spec 0 k) as [_|]; [|lia].
  assert ((if 0 <? a then slice_from a lines else lines) = drop (Z.to_nat a) lines) as ->.
  { destruct (Z.ltb_spec 0 a); [apply slice_from_pos; lia|].
    replace a with 0 by lia. reflexivity. }
  rewrite slice_from_pos, slice_to_pos by lia.
  rewrite <- concat_app. f_equal.
  replace (Z.to_nat (a + k)) with (Z.to_nat a + Z.to_nat k)%nat by lia.
  rewrite <- drop_drop. apply take_drop.
Qed.

(** X4.  The content [read_file] returns never holds a carriage return,
    whatever the file holds and whatever offset and limit are. *)
Theorem read_file_content_has_no_cr req fs r fs' :
  read_file Path_expanduser req fs = (Ok r, fs') ->
  ~ In 13 (rr_content r).
Proof.
  intros Hr.
  destruct (node_at fs (Path_expanduser (fr_path req))) as [[data|]|] eqn:Hn;
    try (destruct (read_file_not_file req fs) as [status Hraise];
         [intros data; rewrite Hn; discriminate
         |rewrite Hraise in Hr; discriminate Hr]).
  rewrite (read_file_on_file _ _ _ Hn) in Hr. injection Hr as <- _.
  cbn [rr_content]. intros Hin.
  apply (universal_newlines_has_no_cr (decode_replace data)).
  rewrite <- (concat_splitlines (universal_newlines (decode_replace data))).
  destruct (0 <? fr_limit req); destruct (0 <? fr_offset req);
    unfold slice_to, slice_from in Hin;
    repeat (apply in_concat_take in Hin || apply in_concat_drop in Hin); exact Hin.
Qed.

End MoreFileFacts.

(** *** Writing, and the shape of the file system *)

Lemma node_at_insert (fs : filesystem) q v x :
  q <> [] ->
  node_at (<[q := v]> fs) x = if decide (x = q) then Some v else node_at fs x.
Proof.
  intros Hq. unfold node_at. destruct x as [|a x]; case_decide.
  - congruence.
  - reflexivity.
  - subst q. apply lookup_insert_eq.
  - apply lookup_insert_ne. congruence.
Qed.

Lemma parent_prefix (p : path) : parent p `prefix_of` p.
Proof.
  destruct p as [|a p]; [exists []; reflexivity|].
  exists [List.last (a :: p) a]. unfold parent.
  apply app_removelast_last. discriminate.
Qed.

Lemma prefix_snoc_cases {A} (q p0 : list A) x :
  q `prefix_of` p0 ++ [x] -> q = p0 ++ [x] \/ q `prefix_of` p0.
Proof.
  intros [k Hk]. destruct k as [|y k] using rev_ind.
  - left. rewrite app_nil_r in Hk. auto.
  - right. rewrite app_assoc in Hk. apply app_inj_tail in Hk as [-> _].
    exists k. reflexivity.
Qed.

Lemma tree_empty : tree ∅.
Proof.
  intros p n. unfold node_at. destruct p; [reflexivity|].
  rewrite lookup_empty. discriminate.
Qed.

(** A new entry in an existing directory keeps the tree, unless it replaces
    a directory. *)
Lemma tree_insert fs q v :
  tree fs -> q <> [] ->
  node_at fs (parent q) = Some Dir ->
  node_at fs q <> Some Dir ->
  tree (<[q := v]> fs).
Proof.
  intros Ht Hq Hpar Hnd p n. rewrite !(node_at_insert _ _ _ _ Hq).
  destruct (decide (p = q)) as [->|Hne].
  - intros _. destruct (decide (parent q = q)) as [E|_];
      [destruct (parent_neq q Hq E)|exact Hpar].
  - intros Hp. apply Ht in Hp.
    destruct (decide (parent p = q)) as [E|_]; [|exact Hp].
    rewrite E in Hp. contradiction.
Qed.

(** In a tree, everything above an existing path is a directory. *)
Lemma tree_ancestors fs :
  tree fs ->
  forall p n, node_at fs p = Some n ->
  forall q, q `prefix_of` p -> q <> p -> node_at fs q = Some Dir.
Proof.
  intros Ht p. induction p as [|x p0 IH] using rev_ind; intros n Hp q Hq Hne.
  - destruct Hq as [k Hk]. symmetry in Hk. apply app_eq_nil in Hk as [-> _].
    congruence.
  - apply prefix_snoc_cases in Hq as [->|Hq]; [congruence|].
    apply Ht in Hp. unfold parent in Hp. rewrite removelast_last in Hp.
    destruct (decide (q = p0)) as [->|Hne']; [exact Hp|].
    eapply IH; eauto.
Qed.

(** What [os.mkdir] does: it adds one directory where there was nothing, in
    a directory that exists, or it raises and changes nothing. *)
Lemma os_mkdir_cases q fs res fs' :
  os_mkdir q fs = (res, fs') ->
  (res = Ok tt /\ fs' = <[q := Dir]> fs /\ q <> [] /\
   node_at fs q = None /\ node_at fs (parent q) = Some Dir) \/
  (fs' = fs /\ exists e, res = Raise (OSError e)).
Proof.
  unfold os_mkdir. monad_red.
  destruct (node_at fs q) as [n|] eqn:Hq.
  { intros [= <- <-]. right. eauto. }
  destruct (node_at fs (parent q)) as [[d|]|] eqn:Hp; intros [= <- <-];
    try solve [right; eauto].
  left. repeat split; auto. intros ->. discriminate Hq.
Qed.

Lemma mkdir_exist_ok_cases q fs res fs' :
  mkdir_exist_ok q fs = (res, fs') ->
  (res = Ok tt /\ fs' = <[q := Dir]> fs /\ q <> [] /\
   node_at fs q = None /\ node_at fs (parent q) = Some Dir) \/
  fs' = fs.
Proof.
  unfold mkdir_exist_ok.
  destruct (os_mkdir q fs) as [r fs1] eqn:Hm.
  apply os_mkdir_cases in Hm as [(-> & -> & H)|(-> & e & ->)].
  - intros [= <- <-]. left. tauto.
  - right. unfold is_dir in *. revert H. monad_red.
    destruct e; destruct (node_at fs q) as [[|]|]; intros [= _ <-]; reflexivity.
Qed.

Lemma mkdir_parents_rev_unfold rq fs :
  mkdir_parents_rev rq fs =
  match os_mkdir (rev rq) fs with
  | (Raise (OSError ENOENT), fs') =>
      match rq with
      | [] => (Raise (OSError ENOENT), fs')
      | _ :: rparent =>
          match mkdir_parents_rev rparent fs' with
          | (Ok _, fs1) => mkdir_exist_ok (rev rq) fs1
          | r => r
          end
      end
  | (Raise e, fs') =>
      match is_dir (rev rq) fs' with
      | (Ok true, fs'') => (Ok tt, fs'')
      | (_, fs'') => (Raise e, fs'')
      end
  | r => r
  end.
Proof. destruct rq; reflexivity. Qed.

(** Making the parents of a path keeps the tree and touches nothing but
    what lies on the way to the path. *)
Lemma mkdir_parents_rev_effect rq : forall fs res fs',
  mkdir_parents_rev rq fs = (res, fs') ->
  (tree fs -> tree fs') /\
  (forall q, ~ q `prefix_of` rev rq -> fs' !! q = fs !! q).
Proof.
  induction rq as [|x rparent IH]; intros fs res fs'; rewrite mkdir_parents_rev_unfold;
    destruct (os_mkdir _ fs) as [r fs1] eqn:Hm;
    apply os_mkdir_cases in Hm as [(-> & -> & Hq & Hnone & Hpar)|(-> & e & ->)].
  - intros [= <- <-]. simpl in Hq. congruence.
  - unfold is_dir. monad_red.
    destruct e; destruct (node_at fs (rev [])) as [[|]|]; intros [= _ <-]; auto.
  - intros [= <- <-]. split.
    + intros Ht. apply tree_insert; [exact Ht|exact Hq|exact Hpar|].
      intros Heq. cbn [rev] in *. congruence.
    + intros q Hq'. apply lookup_insert_ne. intros <-. apply Hq'. reflexivity.
  - assert (forall r' fs2,
              (let '(r0, fs0) := is_dir (rev (x :: rparent)) fs in
               match r0 with
               | Ok true => (Ok tt, fs0)
               | _ => (Raise (OSError e), fs0)
               end) = (r', fs2) -> fs2 = fs) as Hsame.
    { intros r' fs2. unfold is_dir. monad_red.
      destruct (node_at fs (rev (x :: rparent))) as [[|]|]; intros [= _ <-]; reflexivity. }
    destruct e;
      try (intros H; apply Hsame in H as ->; auto).
    destruct (mkdir_parents_rev rparent fs) as [r1 fs1] eqn:Hrec.
    apply IH in Hrec as [Htree Hframe].
    assert (forall q, ~ q `prefix_of` rev (x :: rparent) -> fs1 !! q = fs !! q) as Hframe'.
    { intros q Hq. apply Hframe. intros Hp. apply Hq. simpl.
      apply prefix_app_r. exact Hp. }
    destruct r1 as [[]|e1|]; try (intros [= <- <-]; auto).
    intros Hm. apply mkdir_exist_ok_cases in Hm as [(-> & -> & Hq & Hnone & Hpar)| ->];
      [|auto].
    split.
    + intros Ht. apply tree_insert; [exact (Htree Ht)|exact Hq|exact Hpar|].
      intros Heq. cbn [rev] in *. congruence.
    + intros q Hq'. rewrite lookup_insert_ne; [auto|].
      intros <-. apply Hq'. reflexivity.
Qed.

(** Making the parents of a directory that exists does nothing. *)
Lemma mkdir_parents_existing q fs :
  node_at fs q = Some Dir -> mkdir_parents q fs = (Ok tt, fs).
Proof.
  intros Hq. unfold mkdir_parents. rewrite mkdir_parents_rev_unfold, rev_involutive.
  unfold os_mkdir, is_dir. monad_red. rewrite Hq. monad_red. rewrite Hq. reflexivity.
Qed.

(** What [write_text] does to the file system, for each way it ends. *)
Lemma write_text_cases p content fs res fs' :
  write_text p content fs = (res, fs') ->
  fs' = fs \/
  (p <> [] /\ node_at fs (parent p) = Some Dir /\ node_at fs p <> Some Dir /\
   exists data, fs' = <[p := File data]> fs).
Proof.
  unfold write_text. monad_red.
  assert (p = [] \/ p <> []) as [->|Hne] by (destruct p; [left|right]; congruence).
  { simpl. intros [= _ <-]. auto. }
  destruct (node_at fs p) as [[d|]|] eqn:Hp;
    try (intros [= _ <-]; auto; fail);
    (destruct (node_at fs (parent p)) as [[d'|]|] eqn:Hpar;
     try (intros [= _ <-]; auto; fail);
     destruct (utf8_encode content) as [data|]; intros [= _ <-]; right;
     rewrite ?insert_insert_eq; repeat split; eauto; discriminate).
Qed.

Section WriteFacts.

Variable Path_expanduser : str -> path.

(** The directories are made before the file, and nothing is put below a
    regular file. *)
Lemma write_file_tree req fs res fs' :
  tree fs ->
  write_file Path_expanduser req fs = (res, fs') ->
  tree fs'.
Proof.
  intros Ht. unfold write_file, bind, mkdir_parents.
  destruct (mkdir_parents_rev _ fs) as [r1 fs1] eqn:Hm.
  apply mkdir_parents_rev_effect in Hm as [Ht1 _]. specialize (Ht1 Ht).
  destruct r1 as [[]|e|]; try (intros [= _ <-]; exact Ht1).
  destruct (write_text _ _ fs1) as [r2 fs2] eqn:Hw.
  apply write_text_cases in Hw as [->|(Hne & Hpar & Hnd & data & ->)].
  - destruct r2; intros [= _ <-]; exact Ht1.
  - assert (tree (<[Path_expanduser (fw_path req) := File data]> fs1))
      by (apply tree_insert; auto).
    destruct r2; intros [= _ <-]; assumption.
Qed.

(** X5.  [write_file] keeps the file system a tree, however it ends. *)
Theorem write_file_keeps_tree req fs res fs' :
  tree fs ->
  write_file Path_expanduser req fs = (res, fs') ->
  tree fs'.
Proof. apply write_file_tree. Qed.

(** X6.  After a write that returns, every path above the file is a
    directory: the parents that were missing have all been made. *)
Theorem write_file_makes_ancestors req fs w fs' :
  tree fs ->
  write_file Path_expanduser req fs = (Ok w, fs') ->
  forall q, q `prefix_of` Path_expanduser (fw_path req) ->
            q <> Path_expanduser (fw_path req) ->
            node_at fs' q = Some Dir.
Proof.
  intros Ht Hw q Hq Hne.
  pose proof (write_file_tree _ _ _ _ Ht Hw) as Ht'.
  destruct (write_file_stores _ _ _ _ _ Hw) as (data & _ & Hn & _).
  eapply tree_ancestors; eauto.
Qed.

(** X7.  For a path without [..] and [.] components: however it ends,
    [write_file] leaves alone every place that is not the file itself or
    above it. *)
Theorem write_file_touches_only_its_path req fs res fs' :
  resolved (Path_expanduser (fw_path req)) ->
  write_file Path_expanduser req fs = (res, fs') ->
  forall q, resolved q ->
            ~ q `prefix_of` Path_expanduser (fw_path req) ->
            fs' !! q = fs !! q.
Proof.
  unfold write_file, bind, mkdir_parents. intros _ Hw q _ Hq.
  destruct (mkdir_parents_rev _ fs) as [r1 fs1] eqn:Hm.
  apply mkdir_parents_rev_effect in Hm as [_ Hframe].
  assert (fs1 !! q = fs !! q) as H1.
  { apply Hframe. rewrite rev_involutive. intros Hp. apply Hq.
    etransitivity; [exact Hp|apply parent_prefix]. }
  destruct r1 as [[]|e|]; try (injection Hw as _ <-; exact H1).
  destruct (write_text _ _ fs1) as [r2 fs2] eqn:Hw2.
  assert (fs2 !! q = fs !! q) as H2.
  { apply write_text_cases in Hw2 as [->|(_ & _ & _ & data & ->)]; [exact H1|].
    rewrite lookup_insert_ne; [exact H1|]. intros <-. apply Hq. reflexivity. }
  destruct r2; injection Hw as _ <-; exact H2.
Qed.

(** X8.  Writing to a path that is a directory raises IsADirectoryError and
    changes nothing. *)
Theorem write_file_on_directory req fs :
  node_at fs (Path_expanduser (fw_path req)) = Some Dir ->
  node_at fs (parent (Path_expanduser (fw_path req))) = Some Dir ->
  write_file Path_expanduser req fs = (Raise (OSError EISDIR), fs).
Proof.
  intros Hp Hpar. unfold write_file, bind.
  rewrite (mkdir_parents_existing _ _ Hpar).
  unfold write_text. monad_red. rewrite Hp. reflexivity.
Qed.

(** X9.  A content that cannot be encoded (it holds a lone surrogate) makes
    the write raise UnicodeEncodeError after the file has been opened for
    writing: the file is left empty, its former content lost. *)
Theorem write_file_unencodable_truncates req fs :
  utf8_encode (fw_content req) = None ->
  node_at fs (parent (Path_expanduser (fw_path req))) = Some Dir ->
  node_at fs (Path_expanduser (fw_path req)) <> Some Dir ->
  write_file Path_expanduser req fs
  = (Raise UnicodeEncodeError, <[Path_expanduser (fw_path req) := File []]> fs).
Proof.
  intros He Hpar Hnd. unfold write_file, bind.
  rewrite (mkdir_parents_existing _ _ Hpar).
  unfold write_text. monad_red. rewrite Hpar, He.
  destruct (node_at fs (Path_expanduser (fw_path req))) as [[d|]|];
    try reflexivity. congruence.
Qed.

End WriteFacts.

(** ** More on the command executor *)

Lemma in_slice_from {A} (x : A) i (l : list A) : In x (slice_from i l) -> In x l.
Proof.
  unfold slice_from. intros H.
  rewrite <- (take_drop (Z.to_nat (if i <? 0 then Z.max (len l + i) 0 else Z.min i (len l))) l).
  apply in_app_iff. auto.
Qed.

Lemma or_default_given (d : str) : or_default (Some d) d = d.
Proof. destruct d; reflexivity. Qed.

Section MoreExecutorFacts.

Variable h : host.
Variable PROJECT_DIR : str.

(** The texts [subprocess.run] returns went through universal newlines. *)
Lemma subprocess_run_text cmd cwd timeout now r now' :
  subprocess_run h cmd cwd timeout now = (Ok r, now') ->
  exists out err rc t,
    finishes_within (h_sh h cmd (Some cwd)) timeout = Some (rc, t) /\
    has_nul cmd = false /\ has_nul cwd = false /\ h_chdir h cwd = None /\
    r = {| returncode := rc;
           cp_stdout := universal_newlines out;
           cp_stderr := universal_newlines err |} /\
    now' = (now + t)%Q.
Proof.
  unfold subprocess_run.
  destruct (has_nul cmd) eqn:Hc; [discriminate|].
  destruct (has_nul cwd) eqn:Hd; [discriminate|]. simpl.
  destruct (h_chdir h cwd) eqn:Hdir; [discriminate|].
  destruct (finishes_within _ timeout) as [[rc t]|]; [|discriminate].
  unfold elapse, decode_text. monad_red.
  destruct (decode_strict (written Stdout _)) as [out|]; [|discriminate].
  destruct (decode_strict (written Stderr _)) as [err|]; [|discriminate].
  intros [= <- <-]. exists out, err, rc, t. auto 10.
Qed.

(** X10.  Whatever [run_cmd] returns, its stdout and stderr hold no
    carriage return: captured output went through universal newlines, and
    the texts of a timeout have none. *)
Theorem run_cmd_output_has_no_cr cmd cwd timeout now res now' :
  run_cmd h PROJECT_DIR cmd cwd timeout now = (Ok res, now') ->
  ~ In 13 (stdout res) /\ ~ In 13 (stderr res).
Proof.
  unfold run_cmd, monotonic. monad_red.
  destruct (subprocess_run h cmd _ timeout now) as [[r|e|] t] eqn:Hs.
  - apply subprocess_run_text in Hs as (out & err & rc & t' & _ & _ & _ & _ & -> & _).
    intros [= <- _]. cbn [stdout stderr cp_stdout cp_stderr].
    split; intros Hin; apply in_slice_from in Hin;
      exact (universal_newlines_has_no_cr _ Hin).
  - destruct e; try discriminate. intros [= <- _]. cbn [stdout stderr].
    split; [tauto|]. vm_compute. intros H.
    repeat (destruct H as [H|H]; [discriminate H|]). exact H.
  - discriminate.
Qed.


End MoreExecutorFacts.

(** ** The bridge endpoints *)

Section BridgeFacts.

Variable h : host.
Variable PROJECT_DIR : str.
Variable BRIDGE_SCRIPT : str.
Variable BRIDGE_SCRIPT_path : path.

(** X12.  When the bridge script does not exist, [list_vms] and [list_gpu]
    answer 404 and run nothing: no time passes and nothing changes. *)
Theorem bridge_missing_is_404 w :
  node_at (w_fs w) BRIDGE_SCRIPT_path = None ->
  list_vms h PROJECT_DIR BRIDGE_SCRIPT BRIDGE_SCRIPT_path w = (Raise (HTTPException 404), w) /\
  list_gpu h PROJECT_DIR BRIDGE_SCRIPT BRIDGE_SCRIPT_path w = (Raise (HTTPException 404), w).
Proof.
  intros Hn. unfold list_vms, list_gpu, on_fs, exists_. monad_red.
  rewrite Hn. destruct w. split; reflexivity.
Qed.

(** X13.  When the script exists and its run does not end within 300
    seconds, [list_vms] answers with exit code 124 and an empty output: the
    TIMEOUT text of the executor is not passed on. *)
Theorem list_vms_timeout w n :
  node_at (w_fs w) BRIDGE_SCRIPT_path = Some n ->
  has_nul BRIDGE_SCRIPT = false -> has_nul PROJECT_DIR = false ->
  h_chdir h PROJECT_DIR = None ->
  finishes_within
    (h_sh h (u "bash " ++ BRIDGE_SCRIPT ++ u " list") (Some PROJECT_DIR)) 300 = None ->
  list_vms h PROJECT_DIR BRIDGE_SCRIPT BRIDGE_SCRIPT_path w
  = (Ok {| br_output := []; br_exit_code := 124 |},
     {| w_fs := w_fs w;
        w_clock := (w_clock w + (inject_Z 300 + h_kill_latency h))%Q |}).
Proof.
  intros Hn Hs Hp Hdir Hfin.
  assert (has_nul (u "bash " ++ BRIDGE_SCRIPT ++ u " list") = false) as Hc.
  { unfold has_nul in *. rewrite !existsb_app, Hs. reflexivity. }
  unfold list_vms, on_fs, on_clock, exists_. monad_red. rewrite Hn. monad_red.
  unfold run_cmd, subprocess_run, monotonic, elapse.
  rewrite or_default_given, Hc, Hp, Hdir, Hfin. monad_red. reflexivity.
Qed.

End BridgeFacts.

(** ** More on the streaming shell session *)

(** [rstrip] leaves no trailing occurrence of the character. *)
Lemma rstrip_last c s : List.last (rstrip c s) 0 <> c \/ rstrip c s = [].
Proof.
  induction s as [|x s IH]; simpl; [auto|].
  destruct (rstrip c s) as [|y r'] eqn:E.
  - destruct (Z.eqb_spec x c); [auto|]. left. simpl. auto.
  - left. destruct IH as [IH|IH]; [|discriminate]. exact IH.
Qed.

Lemma sent_on_app ch evs1 evs2 :
  sent_on ch (evs1 ++ evs2) = sent_on ch evs1 ++ sent_on ch evs2.
Proof.
  induction evs1 as [|e evs1 IH]; [reflexivity|].
  destruct e as [| [c t|] | | |]; simpl; rewrite ?IH; try reflexivity.
  destruct (channel_eqb c ch); simpl; rewrite ?IH; reflexivity.
Qed.

Section MoreSessionFacts.

Variable json_loads : str -> Result json.
Variable h : host.
Variable PROJECT_DIR : str.

(** X14.  Submissions are handled one at a time, in the order received, and
    none is skipped: the rounds are those of a first part of the inbox,
    every round but the last ran to its end, and a submission is left
    unread only after a round that did not. *)
Theorem ws_shell_serves_in_order inbox : forall frames rounds fin,
  ws_shell json_loads h PROJECT_DIR inbox frames = (rounds, fin) ->
  exists unread,
    inbox = map rd_data rounds ++ unread /\
    Forall (fun r => rd_status r = Ok tt) (removelast rounds) /\
    (unread = [] \/ exists r, List.last rounds r = r /\ In r rounds /\ rd_status r <> Ok tt).
Proof.
  induction inbox as [|data rest IH]; intros frames rounds fin Hs.
  - injection Hs as <- <-. exists []. repeat split; auto.
  - cbn [ws_shell] in Hs.
    destruct (handle json_loads h PROJECT_DIR data _) as [res s] eqn:Hh.
    assert (res <> Ok tt ->
            rounds = [{| rd_data := data; rd_events := trace s; rd_status := res |}] ->
            exists unread,
              data :: rest = map rd_data rounds ++ unread /\
              Forall (fun r => rd_status r = Ok tt) (removelast rounds) /\
              (unread = [] \/
               exists r, List.last rounds r = r /\ In r rounds /\ rd_status r <> Ok tt))
      as Hstop.
    { intros Hne ->. exists rest. split; [reflexivity|]. split; [constructor|].
      right. eexists. split; [reflexivity|]. split; [left; reflexivity|exact Hne]. }
    destruct res as [[]|e|].
    + destruct (ws_shell json_loads h PROJECT_DIR rest (budget s)) as [rs fin'] eqn:Hr.
      injection Hs as <- <-.
      destruct (IH _ _ _ Hr) as (unread & -> & Hall & Hlast).
      exists unread. split; [reflexivity|]. split.
      * destruct rs as [|r0 rs']; [constructor|].
        change (removelast (?a :: r0 :: rs')) with (a :: removelast (r0 :: rs')).
        constructor; [reflexivity|exact Hall].
      * destruct Hlast as [->|(r & Hl & Hin & Hne)]; [auto|].
        right. exists r. split; [|split; [right; exact Hin|exact Hne]].
        destruct rs as [|r0 rs']; [destruct Hin|]. exact Hl.
    + apply Hstop; [discriminate|]. destruct e; injection Hs as <- _; reflexivity.
    + apply Hstop; [discriminate|]. injection Hs as <- _. reflexivity.
Qed.

(** The output frames of the drains, channel by channel: the lines the
    child wrote on the channel before closing it, in order. *)
Lemma gather_delivers items : forall o e s s',
  gather items o e s = (Ok tt, s') ->
  exists evs,
    trace s' = trace s ++ evs /\
    forall ch, sent_on ch evs
               = if is_open ch o e then map line_text (delivered ch items) else [].
Proof.
  induction items as [|it rest IH]; intros o e s s' Hg.
  - destruct o, e; try discriminate Hg. injection Hg as <-.
    exists []. rewrite app_nil_r. split; [reflexivity|]. intros []; reflexivity.
  - assert (o = false /\ e = false \/ (o = true \/ e = true)) as [[-> ->]|Hopen]
      by (destruct o, e; auto).
    { rewrite gather_closed in Hg. injection Hg as <-.
      exists []. rewrite app_nil_r. split; [reflexivity|]. intros []; reflexivity. }
    rewrite gather_step in Hg by exact Hopen.
    destruct it as [c raw|c].
    + destruct (is_open c o e) eqn:Hc.
      * unfold bind, stream in Hg.
        destruct (line_limit <? len (line_body raw)); [discriminate Hg|].
        unfold send_json in Hg. destruct (budget s) as [|b]; [discriminate Hg|].
        apply IH in Hg as (evs & Ht & Hsent). cbn [trace] in Ht.
        exists (EvSend (OutputLine c (rstrip 10 (decode_replace raw))) :: evs).
        rewrite Ht, <- app_assoc. split; [reflexivity|].
        intros ch. cbn [sent_on delivered]. rewrite Hsent.
        destruct c, ch; cbn [channel_eqb is_open] in *; subst; try reflexivity;
          destruct o, e; try reflexivity; discriminate.
      * apply IH in Hg as (evs & Ht & Hsent). exists evs. split; [exact Ht|].
        intros ch. rewrite Hsent. cbn [delivered].
        destruct c, ch; cbn [channel_eqb is_open] in *; subst; reflexivity.
    + destruct (is_open c o e) eqn:Hc.
      * unfold bind, emit in Hg.
        destruct c; apply IH in Hg as (evs & Ht & Hsent); cbn [trace] in Ht;
          [exists (EvEof Stdout :: evs) | exists (EvEof Stderr :: evs)];
          rewrite Ht, <- app_assoc; (split; [reflexivity|]);
          intros ch; cbn [sent_on delivered]; rewrite Hsent;
          destruct ch; cbn [channel_eqb is_open] in *; subst; reflexivity.
      * apply IH in Hg as (evs & Ht & Hsent). exists evs. split; [exact Ht|].
        intros ch. rewrite Hsent. cbn [delivered].
        destruct c, ch; cbn [channel_eqb is_open] in *; subst; reflexivity.
Qed.

(** Every output frame of the drains carries the text of a line the child
    wrote on that channel. *)
Lemma gather_sends_lines items : forall o e s res s',
  gather items o e s = (res, s') ->
  exists evs,
    trace s' = trace s ++ evs /\
    forall ch t, In (EvSend (OutputLine ch t)) evs ->
                 exists raw, In (Line ch raw) items /\ t = line_text raw.
Proof.
  induction items as [|it rest IH]; intros o e s res s' Hg.
  - exists []. rewrite app_nil_r.
    destruct o, e; injection Hg as _ <-; split; auto; intros ? ? [].
  - assert (o = false /\ e = false \/ (o = true \/ e = true)) as [[-> ->]|Hopen]
      by (destruct o, e; auto).
    { rewrite gather_closed in Hg. injection Hg as _ <-.
      exists []. rewrite app_nil_r. split; auto. intros ? ? []. }
    rewrite gather_step in Hg by exact Hopen.
    assert (forall evs, (forall ch t, In (EvSend (OutputLine ch t)) evs ->
                           exists raw, In (Line ch raw) rest /\ t = line_text raw) ->
                        forall ch t, In (EvSend (OutputLine ch t)) evs ->
                           exists raw, In (Line ch raw) (it :: rest) /\ t = line_text raw)
      as Hweak.
    { intros evs Hev ch t Hin. destruct (Hev ch t Hin) as (raw & Hr & ->).
      exists raw. split; [right; exact Hr|reflexivity]. }
    destruct it as [c raw|c].
    + destruct (is_open c o e); [|apply IH in Hg as (evs & Ht & Hev); eauto].
      unfold bind, stream, raise in Hg.
      destruct (line_limit <? len (line_body raw)).
      { injection Hg as _ <-. exists []. rewrite app_nil_r. split; auto. intros ? ? []. }
      unfold send_json in Hg. destruct (budget s) as [|b].
      { injection Hg as _ <-. exists []. rewrite app_nil_r. split; auto. intros ? ? []. }
      apply IH in Hg as (evs & Ht & Hev). cbn [trace] in Ht.
      exists (EvSend (OutputLine c (rstrip 10 (decode_replace raw))) :: evs).
      rewrite Ht, <- app_assoc. split; [reflexivity|].
      intros ch t [Heq|Hin]; [|eapply Hweak; eauto].
      injection Heq as <- <-. exists raw. split; [left; reflexivity|reflexivity].
    + destruct (is_open c o e); [|apply IH in Hg as (evs & Ht & Hev); eauto].
      unfold bind, emit in Hg.
      destruct c; apply IH in Hg as (evs & Ht & Hev); cbn [trace] in Ht;
        [exists (EvEof Stdout :: evs) | exists (EvEof Stderr :: evs)];
        rewrite Ht, <- app_assoc; (split; [reflexivity|]);
        intros ch t [Heq|Hin]; try discriminate Heq; eapply Hweak; eauto.
Qed.

(** How the handling of one submission is built around the drains. *)
Lemma handle_inv data n res s' :
  handle json_loads h PROJECT_DIR data {| budget := n; trace := [] |} = (res, s') ->
  (trace s' = [] /\ res <> Ok tt) \/
  exists c d rg sg tail,
    gather (p_pipes (h_sh h c d)) true true {| budget := n; trace := [EvSpawn c d] |}
    = (rg, sg) /\
    trace s' = trace sg ++ tail /\
    (tail = [] \/
     exists rc, tail = [EvWait rc] \/ tail = [EvWait rc; EvSend (Completion rc)]) /\
    (res = Ok tt -> rg = Ok tt).
Proof.
  unfold handle. intros H.
  cbv beta iota delta [bind lift] in H.
  destruct (json_loads data) as [msg|e|];
    [|injection H as <- <-; left; split; [reflexivity|discriminate]..].
  destruct (msg_get msg (u "command") (JStr [])) as [cmd|e|];
    [|injection H as <- <-; left; split; [reflexivity|discriminate]..].
  destruct (msg_get msg (u "cwd") (JStr PROJECT_DIR)) as [cwd|e|];
    [|injection H as <- <-; left; split; [reflexivity|discriminate]..].
  destruct (create_subprocess_shell h cmd cwd _) as [rp s1] eqn:Hc.
  apply create_subprocess_shell_cases in Hc as [[-> [e ->]]|(c & d & -> & -> & ->)].
  { injection H as <- <-. left. split; [reflexivity|discriminate]. }
  cbn [trace budget app] in H. right.
  destruct (gather _ _ _ _) as [rg sg] eqn:Hg.
  exists c, d, rg, sg.
  destruct rg as [[]|e|];
    [|injection H as <- <-; exists []; rewrite app_nil_r;
      repeat split; auto; discriminate..].
  unfold proc_wait in H.
  destruct (p_exit (h_sh h c d)) as [[rc t]|].
  2:{ cbv beta iota delta [block] in H. injection H as <- <-. exists [].
      rewrite app_nil_r. repeat split; auto. }
  cbv beta iota delta [bind emit ret send_json] in H. cbn [trace budget] in H.
  destruct (budget sg) as [|b] eqn:Hb; injection H as <- <-; cbn [trace].
  - exists [EvWait rc]. repeat split; eauto.
  - exists [EvWait rc; EvSend (Completion rc)].
    split; [exact Hg|]. split; [symmetry; apply (app_assoc (trace sg) [_] [_])|].
    split; eauto.
Qed.

(** X15.  For a submission handled to its end, the output frames of each
    channel are exactly the lines the child wrote on that channel before
    closing it, in the order written, each decoded and without its line
    end: no line is lost, repeated or reordered within a channel. *)
Theorem completed_round_delivers_all inbox frames rounds fin r :
  ws_shell json_loads h PROJECT_DIR inbox frames = (rounds, fin) ->
  In r rounds ->
  rd_status r = Ok tt ->
  exists c d rest,
    rd_events r = EvSpawn c d :: rest /\
    forall ch, sent_on ch (rd_events r)
               = map line_text (delivered ch (p_pipes (h_sh h c d))).
Proof.
  intros Hs Hin Hok.
  destruct (ws_shell_rounds_handle _ _ _ _ _ _ _ _ Hs Hin) as (n & s' & Hh & ->).
  rewrite Hok in Hh.
  apply handle_inv in Hh as [[_ Hne]|(c & d & rg & sg & tail & Hg & -> & Htail & Hrg)];
    [congruence|].
  rewrite (Hrg eq_refl) in Hg.
  apply gather_delivers in Hg as (evs & -> & Hsent). cbn [trace app].
  exists c, d, (evs ++ tail). split; [reflexivity|].
  intros ch. cbn [app sent_on]. rewrite sent_on_app, Hsent. cbn [is_open].
  assert (sent_on ch tail = []) as ->
    by (destruct Htail as [->|[rc [->| ->]]]; reflexivity).
  destruct ch; apply app_nil_r.
Qed.

(** X16.  Whatever becomes of a submission, every output frame sent for it
    carries a line its child wrote on that channel, decoded, and its text
    does not end with a line feed. *)
Theorem output_frames_are_child_lines inbox frames rounds fin r ch t :
  ws_shell json_loads h PROJECT_DIR inbox frames = (rounds, fin) ->
  In r rounds ->
  In (EvSend (OutputLine ch t)) (rd_events r) ->
  exists c d rest raw,
    rd_events r = EvSpawn c d :: rest /\
    In (Line ch raw) (p_pipes (h_sh h c d)) /\
    t = rstrip 10 (decode_replace raw) /\
    (t = [] \/ List.last t 0 <> 10).
Proof.
  intros Hs Hin Hsend.
  destruct (ws_shell_rounds_handle _ _ _ _ _ _ _ _ Hs Hin) as (n & s' & Hh & Hev).
  rewrite Hev in *. clear Hev.
  apply handle_inv in Hh as [[Hnil _]|(c & d & rg & sg & tail & Hg & Ht & Htail & _)].
  { rewrite Hnil in Hsend. destruct Hsend. }
  apply gather_sends_lines in Hg as (evs & Hsg & Hlines). cbn [trace app] in Hsg.
  rewrite Ht, Hsg in *. cbn [app] in Hsend.
  destruct Hsend as [Hsend|Hsend]; [discriminate Hsend|].
  apply in_app_iff in Hsend as [Hsend|Hsend].
  - destruct (Hlines ch t Hsend) as (raw & Hraw & ->).
    exists c, d, (evs ++ tail), raw. split; [reflexivity|]. split; [exact Hraw|].
    split; [reflexivity|]. unfold line_text.
    destruct (rstrip_last 10 (decode_replace raw)); auto.
  - exfalso. destruct Htail as [->|[rc [->| ->]]]; simpl in Hsend;
      repeat (destruct Hsend as [Hsend|Hsend]; [discriminate Hsend|]); exact Hsend.
Qed.




(** X18.  A submission that decodes to something other than an object (a
    list, a string, a number, null) ends the session with AttributeError
    before anything is started; no frame is sent. *)
Theorem non_object_ends_session data msg rest frames :
  json_loads data = Ok msg ->
  (forall fields, msg <> JObj fields) ->
  ws_shell json_loads h PROJECT_DIR (data :: rest) frames
  = ([{| rd_data := data; rd_events := []; rd_status := Raise AttributeError |}],
     Crashed AttributeError).
Proof.
  intros Hd Hno. cbn [ws_shell]. unfold handle. cbv beta iota delta [bind lift].
  rewrite Hd. destruct msg; try reflexivity. destruct (Hno fields eq_refl).
Qed.

(** X19.  A submission whose [command] is not a string ends the session
    with ValueError before anything is started; no frame is sent. *)
Theorem non_string_command_ends_session data fields v rest frames :
  json_loads data = Ok (JObj fields) ->
  lookup_field (u "command") fields = Some v ->
  (forall c, v <> JStr c) ->
  ws_shell json_loads h PROJECT_DIR (data :: rest) frames
  = ([{| rd_data := data; rd_events := []; rd_status := Raise ValueError |}],
     Crashed ValueError).
Proof.
  intros Hd Hv Hno. cbn [ws_shell]. unfold handle. cbv beta iota delta [bind lift].
  rewrite Hd. cbn [msg_get]. rewrite Hv.
  unfold create_subprocess_shell.
  destruct v; try reflexivity. destruct (Hno s eq_refl).
Qed.

End MoreSessionFacts.

(** *** The extra facts on the samples *)

Lemma read_file_ignores_nonpositive_witness :
  exists r,
    read_file posix_path
      {| fr_path := u "/tmp/notes.txt"; fr_offset := -3; fr_limit := 0 |} demo_fs
    = (Ok r, demo_fs) /\
    rr_content r = universal_newlines (decode_replace (u "old")).
Proof.
  apply (read_file_ignores_nonpositive posix_path
           {| fr_path := u "/tmp/notes.txt"; fr_offset := -3; fr_limit := 0 |}
           (u "old") demo_fs).
  - vm_compute. reflexivity.
  - simpl. lia.
  - simpl. lia.
Defined.

Lemma read_file_pages_join_witness :
  exists r1 r2 r,
    read_file posix_path {| fr_path := u "/tmp/notes.txt"; fr_offset := 0; fr_limit := 1 |}
      demo_fs = (Ok r1, demo_fs) /\
    read_file posix_path
      {| fr_path := u "/tmp/notes.txt"; fr_offset := 0 + 1; fr_limit := 0 |}
      demo_fs = (Ok r2, demo_fs) /\
    read_file posix_path {| fr_path := u "/tmp/notes.txt"; fr_offset := 0; fr_limit := 0 |}
      demo_fs = (Ok r, demo_fs) /\
    rr_content r1 ++ rr_content r2 = rr_content r.
Proof.
  apply (read_file_pages_join posix_path (u "/tmp/notes.txt") (u "old") demo_fs 0 1).
  - vm_compute. reflexivity.
  - lia.
  - lia.
Defined.

Lemma read_file_content_has_no_cr_witness :
  ~ In 13 (rr_content {| rr_path := [u "tmp"; u "notes.txt"];
                         rr_content := u "old"; rr_total_lines := 1 |}).
Proof.
  apply (read_file_content_has_no_cr posix_path
           {| fr_path := u "/tmp/notes.txt"; fr_offset := 0; fr_limit := 0 |}
           demo_fs _ demo_fs).
  vm_compute. reflexivity.
Defined.

Lemma write_file_keeps_tree_witness :
  tree (snd (write_file posix_path
               {| fw_path := u "/tmp/a/b/notes.txt"; fw_content := demo_text |} ∅)).
Proof.
  apply (write_file_keeps_tree posix_path
           {| fw_path := u "/tmp/a/b/notes.txt"; fw_content := demo_text |} ∅
           (fst (write_file posix_path
                   {| fw_path := u "/tmp/a/b/notes.txt"; fw_content := demo_text |} ∅))).
  - exact tree_empty.
  - vm_compute. reflexivity.
Defined.

Lemma write_file_makes_ancestors_witness :
  node_at (snd (write_file posix_path
                  {| fw_path := u "/tmp/a/b/notes.txt"; fw_content := demo_text |} ∅))
          [u "tmp"; u "a"] = Some Dir.
Proof.
  apply (write_file_makes_ancestors posix_path
           {| fw_path := u "/tmp/a/b/notes.txt"; fw_content := demo_text |} ∅
           {| wr_path := [u "tmp"; u "a"; u "b"; u "notes.txt"]; wr_bytes_written := 7 |}).
  - exact tree_empty.
  - vm_compute. reflexivity.
  - exists [u "b"; u "notes.txt"]. vm_compute. reflexivity.
  - vm_compute. discriminate.
Defined.

Lemma write_file_touches_only_its_path_witness :
  snd (write_file posix_path
         {| fw_path := u "/tmp/a/b/notes.txt"; fw_content := demo_text |} demo_fs)
    !! [u "tmp"; u "notes.txt"]
  = demo_fs !! [u "tmp"; u "notes.txt"].
Proof.
  apply (write_file_touches_only_its_path posix_path
           {| fw_path := u "/tmp/a/b/notes.txt"; fw_content := demo_text |} demo_fs
           (fst (write_file posix_path
                   {| fw_path := u "/tmp/a/b/notes.txt"; fw_content := demo_text |} demo_fs))).
  - vm_compute. repeat first [discriminate | constructor].
  - vm_compute. reflexivity.
  - vm_compute. repeat first [discriminate | constructor].
  - intros [k Hk]. vm_compute in Hk. discriminate Hk.
Defined.

Lemma write_file_on_directory_witness :
  write_file posix_path {| fw_path := u "/tmp"; fw_content := demo_text |} demo_fs
  = (Raise (OSError EISDIR), demo_fs).
Proof.
  apply (write_file_on_directory posix_path
           {| fw_path := u "/tmp"; fw_content := demo_text |} demo_fs);
    vm_compute; reflexivity.
Defined.

Lemma write_file_unencodable_truncates_witness :
  write_file posix_path {| fw_path := u "/tmp/notes.txt"; fw_content := demo_surrogate |}
    demo_fs
  = (Raise UnicodeEncodeError,
     <[posix_path (u "/tmp/notes.txt") := File []]> demo_fs).
Proof.
  apply (write_file_unencodable_truncates posix_path
           {| fw_path := u "/tmp/notes.txt"; fw_content := demo_surrogate |} demo_fs).
  - vm_compute. reflexivity.
  - vm_compute. reflexivity.
  - vm_compute. discriminate.
Defined.

Lemma run_cmd_output_has_no_cr_witness :
  ~ In 13 [97; 10; 98] /\ ~ In 13 [120; 10].
Proof.
  apply (run_cmd_output_has_no_cr demo_host demo_dir (u "both") None 300 0%Q
           {| exit_code := 3; stdout := [97; 10; 98]; stderr := [120; 10];
              duration_ms := 500 |} (1 # 2)%Q).
  vm_compute. reflexivity.
Defined.


Lemma bridge_missing_is_404_witness :
  list_vms demo_host demo_dir demo_bridge (posix_path demo_bridge) demo_world
  = (Raise (HTTPException 404), demo_world) /\
  list_gpu demo_host demo_dir demo_bridge (posix_path demo_bridge) demo_world
  = (Raise (HTTPException 404), demo_world).
Proof.
  apply (bridge_missing_is_404 demo_host demo_dir demo_bridge (posix_path demo_bridge)
           demo_world).
  vm_compute. reflexivity.
Defined.

Lemma list_vms_timeout_witness :
  list_vms demo_slow_host demo_dir demo_bridge [u "tmp"; u "notes.txt"] demo_world
  = (Ok {| br_output := []; br_exit_code := 124 |},
     {| w_fs := demo_fs;
        w_clock := (0 + (inject_Z 300 + h_kill_latency demo_slow_host))%Q |}).
Proof.
  apply (list_vms_timeout demo_slow_host demo_dir demo_bridge [u "tmp"; u "notes.txt"]
           demo_world (File (u "old")));
    vm_compute; reflexivity.
Defined.

Lemma ws_shell_serves_in_order_witness :
  exists unread,
    [u "{bad"; js "{'command': 'echo hello'}"]
    = map rd_data (fst (ws_shell demo_loads demo_host demo_dir
                          [u "{bad"; js "{'command': 'echo hello'}"] 10)) ++ unread /\
    Forall (fun r => rd_status r = Ok tt)
      (removelast (fst (ws_shell demo_loads demo_host demo_dir
                          [u "{bad"; js "{'command': 'echo hello'}"] 10))) /\
    (unread = [] \/
     exists r,
       List.last (fst (ws_shell demo_loads demo_host demo_dir
                         [u "{bad"; js "{'command': 'echo hello'}"] 10)) r = r /\
       In r (fst (ws_shell demo_loads demo_host demo_dir
                    [u "{bad"; js "{'command': 'echo hello'}"] 10)) /\
       rd_status r <> Ok tt).
Proof.
  apply (ws_shell_serves_in_order demo_loads demo_host demo_dir
           [u "{bad"; js "{'command': 'echo hello'}"] 10 _
           (snd (ws_shell demo_loads demo_host demo_dir
                   [u "{bad"; js "{'command': 'echo hello'}"] 10))).
  vm_compute. reflexivity.
Defined.

Lemma completed_round_delivers_all_witness :
  exists c d rest,
    rd_events demo_round = EvSpawn c d :: rest /\
    forall ch, sent_on ch (rd_events demo_round)
               = map line_text (delivered ch (p_pipes (h_sh demo_host c d))).
Proof.
  apply (completed_round_delivers_all demo_loads demo_host demo_dir
           [js "{'command': 'echo hello'}"; js "{'command': 'both'}"] 10
           (fst (ws_shell demo_loads demo_host demo_dir
                   [js "{'command': 'echo hello'}"; js "{'command': 'both'}"] 10))
           Returned demo_round).
  - vm_compute. reflexivity.
  - vm_compute. right. left. reflexivity.
  - reflexivity.
Defined.

Lemma output_frames_are_child_lines_witness :
  exists c d rest raw,
    rd_events demo_cut_round = EvSpawn c d :: rest /\
    In (Line Stdout raw) (p_pipes (h_sh demo_host c d)) /\
    u "a" = rstrip 10 (decode_replace raw) /\
    (u "a" = [] \/ List.last (u "a") 0 <> 10).
Proof.
  apply (output_frames_are_child_lines demo_loads demo_host demo_dir
           [js "{'command': 'both'}"] 1
           (fst (ws_shell demo_loads demo_host demo_dir [js "{'command': 'both'}"] 1))
           Returned demo_cut_round Stdout (u "a")).
  - vm_compute. reflexivity.
  - vm_compute. left. reflexivity.
  - vm_compute. right. left. reflexivity.
Defined.




Lemma non_object_ends_session_witness :
  ws_shell demo_loads_more demo_host demo_dir [js "[1]"; js "{}"] 10
  = ([{| rd_data := js "[1]"; rd_events := []; rd_status := Raise AttributeError |}],
     Crashed AttributeError).
Proof.
  apply (non_object_ends_session demo_loads_more demo_host demo_dir (js "[1]")
           (JArr [JInt 1])).
  - vm_compute. reflexivity.
  - intros fields H. discriminate H.
Defined.

Lemma non_string_command_ends_session_witness :
  ws_shell demo_loads_more demo_host demo_dir [js "{'command': 5}"; js "{}"] 10
  = ([{| rd_data := js "{'command': 5}"; rd_events := []; rd_status := Raise ValueError |}],
     Crashed ValueError).
Proof.
  apply (non_string_command_ends_session demo_loads_more demo_host demo_dir
           (js "{'command': 5}") [(u "command", JInt 5)] (JInt 5)).
  - vm_compute. reflexivity.
  - vm_compute. reflexivity.
  - intros c H. discriminate H.
Defined.

